(** * Remote signing over a peer link: router, host modal and mobile page

    A shallow embedding of the peer-session code of the absence-form
    application:
    - [Router]           : [parseHash] and the route dispatch of [App] (main.jsx);
    - [QRSignatureModal] : the host component (desktop side);
    - [MobileSignPage]   : the client component (second device);
    - [Session]          : the two sides over one transport, and the inputs
                           of the scenarios.

    Components are modelled as a state record, a step function over the
    events their handlers are registered for, and the list of effects a
    handler performs on its collaborators (callbacks, transport, timers). *)

From Stdlib Require Import String Ascii NArith ZArith Bool List Lia.
Import ListNotations.

(** * JavaScript values *)

Module JS.

(** A JavaScript string is a sequence of UTF-16 code units. *)
Definition jschar := N.
Definition jsstring := list jschar.

(** An ASCII literal of the source as a [jsstring]. *)
Definition js (s : string) : jsstring :=
  map N_of_ascii (list_ascii_of_string s).

Definition jsstring_dec : forall a b : jsstring, {a = b} + {a <> b} :=
  list_eq_dec N.eq_dec.

Definition str_eqb (a b : jsstring) : bool :=
  if jsstring_dec a b then true else false.

(** The values a data channel can carry. Numbers are restricted to the
    integers ([NaN] and fractions are not represented). *)
#[warnings="-register-all"]
Inductive jsval :=
| JUndefined
| JNull
| JBool (b : bool)
| JNum (z : Z)
| JStr (s : jsstring)
| JArr (items : list jsval)
| JObj (fields : list (jsstring * jsval)).

(** ToBoolean. *)
Definition truthy (v : jsval) : bool :=
  match v with
  | JUndefined | JNull => false
  | JBool b => b
  | JNum z => negb (z =? 0)%Z
  | JStr s => match s with [] => false | _ => true end
  | JArr _ | JObj _ => true
  end.

Fixpoint lookup (k : jsstring) (fs : list (jsstring * jsval)) : jsval :=
  match fs with
  | [] => JUndefined
  | (k', v) :: fs' => if str_eqb k k' then v else lookup k fs'
  end.

(** Property read [v.k] for the keys [type] and [dataUrl] used by the host:
    [None] is the TypeError raised on [null] and [undefined]; primitives
    and arrays have no such property. *)
Definition get (v : jsval) (k : jsstring) : option jsval :=
  match v with
  | JUndefined | JNull => None
  | JObj fs => Some (lookup k fs)
  | _ => Some JUndefined
  end.

(** [v === 'lit'] against a string literal. *)
Definition strict_eq_str (v : jsval) (lit : jsstring) : bool :=
  match v with
  | JStr s => str_eqb s lit
  | _ => false
  end.

(** An event emitter runs every listener registered for an event, one
    after the other: [emit n h] is [n] listeners with the body [h]. *)
Section Emit.

Context {St Eff : Type}.

Fixpoint emit (n : nat) (h : St -> St * list Eff) (st : St) : St * list Eff :=
  match n with
  | O => (st, [])
  | S k =>
      let (st1, out1) := h st in
      let (st2, out2) := emit k h st1 in
      (st2, out1 ++ out2)
  end.

End Emit.

(** The listeners on a connection object: one for each time the component
    was handed the object, [w] being the objects handed so far. *)
Definition listeners (c : nat) (w : list nat) : nat :=
  count_occ Nat.eq_dec w c.

End JS.

Import JS.

(** * main.jsx: hash routing *)

Module Router.



(** [^#\/sign\/] : the literal must sit at the start of the input. *)
Fixpoint strip_prefix (p s : jsstring) : option jsstring :=
  match p, s with
  | [], _ => Some s
  | _ :: _, [] => None
  | a :: p', b :: s' => if (a =? b)%N then strip_prefix p' s' else None
  end.






Inductive page :=
| MobileSignPage (targetPeerId : jsstring)
| ParentalAbsenceForm.




End Router.

(** * QRSignatureModal.jsx: the host side *)

Module QRSignatureModal.

(** Identity of a [DataConnection] object handed over by the transport. *)
Definition conn := nat.

Inductive status_t := connecting | waiting | connected | received.

(** The component's React state ([peerId], [status], [error]) together
    with what its effect has left in the environment: whether the component
    is still mounted, the connections carrying its [data] handler, and the
    number of [setTimeout] callbacks not yet run. *)
Record state := mk_state {
  peerId : option jsstring;        (* useState(null) *)
  status : status_t;               (* useState('connecting') *)
  error : option jsstring;         (* useState(null) *)
  mounted : bool;
  wired : list conn;
  timers : nat
}.

Definition init : state :=
  {| peerId := None; status := connecting; error := None;
     mounted := true; wired := []; timers := 0 |}.

Inductive event :=
| PeerOpen (id : jsstring)            (* peer.on('open', (id) => ...) *)
| PeerConnection (c : conn)           (* peer.on('connection', (conn) => ...) *)
| ConnData (c : conn) (data : jsval)  (* conn.on('data', (data) => ...) *)
| ConnClose (c : conn)                (* conn.on('close', ...) *)
| PeerError (err : jsval)             (* peer.on('error', (err) => ...) *)
| Timeout                             (* a pending setTimeout callback runs *)
| ClickClose                          (* backdrop or close button *)
| Unmount.                            (* the effect's cleanup *)

Inductive effect :=
| onSignature (dataUrl : jsval)       (* prop callback *)
| onClose                             (* prop callback *)
| destroy                             (* peer.destroy() *)
| setTimeout (ms : N)
| console_error (err : jsval)
| uncaught.                           (* a handler raised *)

(** State setters do nothing once the component is unmounted. *)
Definition setPeerId (id : jsstring) (st : state) : state :=
  if mounted st
  then mk_state (Some id) (status st) (error st) (mounted st) (wired st) (timers st)
  else st.

Definition setStatus (s : status_t) (st : state) : state :=
  if mounted st
  then mk_state (peerId st) s (error st) (mounted st) (wired st) (timers st)
  else st.

Definition setError (msg : jsstring) (st : state) : state :=
  if mounted st
  then mk_state (peerId st) (status st) (Some msg) (mounted st) (wired st) (timers st)
  else st.

Definition add_wired (c : conn) (st : state) : state :=
  mk_state (peerId st) (status st) (error st) (mounted st) (c :: wired st) (timers st).

Definition set_timers (n : nat) (st : state) : state :=
  mk_state (peerId st) (status st) (error st) (mounted st) (wired st) n.

Definition set_unmounted (st : state) : state :=
  mk_state (peerId st) (status st) (error st) false (wired st) (timers st).

Definition is_wired (c : conn) (st : state) : bool :=
  negb (listeners c (wired st) =? 0).

(** [data && data.type === 'signature' && data.dataUrl], with [None] for
    a TypeError on a property read. *)
Definition signature_check (data : jsval) : option bool :=
  if truthy data then
    match get data (js "type") with
    | None => None
    | Some t =>
        if strict_eq_str t (js "signature") then
          match get data (js "dataUrl") with
          | None => None
          | Some d => Some (truthy d)
          end
        else Some false
    end
  else Some false.

(** The payloads the handler acts on: the condition holds. *)
Definition accepts (data : jsval) : bool :=
  match signature_check data with
  | Some true => true
  | _ => false
  end.

(** The argument [data.dataUrl] of the callback. *)
Definition dataUrl_of (data : jsval) : jsval :=
  match get data (js "dataUrl") with
  | Some d => d
  | None => JUndefined
  end.

(** The message of [setError], with its accented letters as code units. *)
Definition error_message : jsstring :=
  js "Kapcsol" ++ [243%N] ++ js "d" ++ [225%N] ++ js "si hiba. K" ++ [233%N]
  ++ js "rlek pr" ++ [243%N] ++ js "b" ++ [225%N] ++ js "ld " ++ [250%N]
  ++ js "jra.".

(** The body of the [data] handler. *)
Definition on_data (data : jsval) (st : state) : state * list effect :=
  match signature_check data with
  | Some true =>
      (set_timers (S (timers st)) (setStatus received st),
       [onSignature (dataUrl_of data); setTimeout 500])
  | Some false => (st, [])
  | None => (st, [uncaught])
  end.

Definition step (st : state) (e : event) : state * list effect :=
  match e with
  | PeerOpen id => (setStatus waiting (setPeerId id st), [])
  | PeerConnection c => (add_wired c (setStatus connected st), [])
  | ConnData c data => emit (listeners c (wired st)) (on_data data) st
  | ConnClose _ => (st, [])
  | PeerError err => (setError error_message st, [console_error err])
  | Timeout =>
      match timers st with
      | O => (st, [])
      | S n => (set_timers n st, [destroy])
      end
  | ClickClose => if mounted st then (st, [onClose]) else (st, [])
  | Unmount => if mounted st then (set_unmounted st, [destroy]) else (st, [])
  end.

Fixpoint run (st : state) (evs : list event) : state * list effect :=
  match evs with
  | [] => (st, [])
  | e :: evs' =>
      let (st1, out1) := step st e in
      let (st2, out2) := run st1 evs' in
      (st2, out1 ++ out2)
  end.

(** [signingUrl], from [window.location.origin], [.pathname] and [peerId]. *)
Definition signingUrl (origin pathname : jsstring) (pid : option jsstring)
  : option jsstring :=
  match pid with
  | Some (c :: id) => Some (origin ++ pathname ++ js "#/sign/" ++ c :: id)
  | _ => None
  end.

(** What the modal shows: one field per conditional block of the JSX. *)
Record view := mk_view {
  spinner : bool;                  (* status === 'connecting' *)
  qr_code : option jsstring;       (* status === 'waiting' && signingUrl *)
  connected_panel : bool;          (* status === 'connected' *)
  received_panel : bool;           (* status === 'received' *)
  error_panel : option jsstring    (* error && ... *)
}.

Definition render (origin pathname : jsstring) (st : state) : view :=
  {| spinner := match status st with connecting => true | _ => false end;
     qr_code := match status st with
                | waiting => signingUrl origin pathname (peerId st)
                | _ => None
                end;
     connected_panel := match status st with connected => true | _ => false end;
     received_panel := match status st with received => true | _ => false end;
     error_panel := match error st with
                    | Some (c :: m) => Some (c :: m)
                    | _ => None
                    end |}.

Definition b2n (b : bool) : nat := if b then 1 else 0.

Definition is_onSignature (f : effect) : bool :=
  match f with onSignature _ => true | _ => false end.

Definition is_destroy (f : effect) : bool :=
  match f with destroy => true | _ => false end.

Definition is_uncaught (f : effect) : bool :=
  match f with uncaught => true | _ => false end.

Definition onSignature_calls (out : list effect) : nat :=
  length (filter is_onSignature out).

Definition destroy_calls (out : list effect) : nat :=
  length (filter is_destroy out).

Definition is_connection (e : event) : bool :=
  match e with PeerConnection _ => true | _ => false end.

Definition is_open (e : event) : bool :=
  match e with PeerOpen _ => true | _ => false end.

(** What [n] listeners do on an accepted payload. *)
Definition burst (dataUrl : jsval) (n : nat) : list effect :=
  concat (repeat [onSignature dataUrl; setTimeout 500] n).

(** The number of times a trace brings an accepted payload to a listener:
    each data event counts once for every announcement of its connection
    before it, in the trace or in [w]. *)
Fixpoint deliveries (w : list conn) (evs : list event) : nat :=
  match evs with
  | [] => 0
  | PeerConnection c :: evs' => deliveries (c :: w) evs'
  | ConnData c data :: evs' =>
      (if accepts data then listeners c w else 0) + deliveries w evs'
  | _ :: evs' => deliveries w evs'
  end.

End QRSignatureModal.

(** * MobileSignPage.jsx: the client side *)

Module MobileSignPage.

Definition conn := nat.

Inductive status_t := connecting | ready | sending | sent | error.

(** React state ([status], [signatureDataUrl]), the ref [connRef], and the
    environment left by the effect: mounted flag, connections carrying the
    component's handlers, pending [setTimeout] callbacks. *)
Record state := mk_state {
  status : status_t;                     (* useState('connecting') *)
  signatureDataUrl : option jsstring;    (* useState(null) *)
  connRef : option conn;                 (* useRef(null) *)
  mounted : bool;
  wired : list conn;
  timers : nat
}.

Definition init : state :=
  {| status := connecting; signatureDataUrl := None; connRef := None;
     mounted := true; wired := []; timers := 0 |}.

Inductive event :=
| PeerOpen (c : conn)          (* peer.on('open'); [c] is what peer.connect returns *)
| ConnOpen (c : conn)          (* conn.on('open', ...) *)
| ConnError (c : conn) (err : jsval)
| ConnClose (c : conn)
| PeerError (err : jsval)
| SignatureChange (v : option jsstring)   (* SignaturePad's onSignatureChange *)
| ClickSend                    (* the submit button's onClick *)
| Timeout                      (* a pending setTimeout callback runs *)
| Unmount.                     (* the effect's cleanup *)

Inductive effect :=
| connect (target : jsstring) (c : conn)   (* peer.connect(targetPeerId, { reliable: true }) *)
| send (c : conn) (payload : jsval)        (* connRef.current.send(...) *)
| setTimeout (ms : N)
| destroy                                  (* peer.destroy() *)
| console_error (err : jsval).

Definition setStatus (s : status_t) (st : state) : state :=
  if mounted st
  then mk_state s (signatureDataUrl st) (connRef st) (mounted st) (wired st) (timers st)
  else st.

Definition setSignatureDataUrl (v : option jsstring) (st : state) : state :=
  if mounted st
  then mk_state (status st) v (connRef st) (mounted st) (wired st) (timers st)
  else st.

Definition set_connRef (c : conn) (st : state) : state :=
  mk_state (status st) (signatureDataUrl st) (Some c) (mounted st) (c :: wired st) (timers st).

Definition set_timers (n : nat) (st : state) : state :=
  mk_state (status st) (signatureDataUrl st) (connRef st) (mounted st) (wired st) n.

Definition set_unmounted (st : state) : state :=
  mk_state (status st) (signatureDataUrl st) (connRef st) false (wired st) (timers st).

Definition is_wired (c : conn) (st : state) : bool :=
  negb (listeners c (wired st) =? 0).

(** [{ type: 'signature', dataUrl: signatureDataUrl }] *)
Definition payload (dataUrl : jsstring) : jsval :=
  JObj [(js "type", JStr (js "signature")); (js "dataUrl", JStr dataUrl)].

(** [sendSignature]: returns at once when [signatureDataUrl] or
    [connRef.current] is falsy. *)
Definition sendSignature (st : state) : state * list effect :=
  match signatureDataUrl st, connRef st with
  | Some (u :: rl), Some c =>
      (set_timers (S (timers st)) (setStatus sending st),
       [send c (payload (u :: rl)); setTimeout 300])
  | _, _ => (st, [])
  end.

(** The signature area (pad and submit button) is in the tree when
    [status === 'ready' || status === 'sending']. *)
Definition signature_area (st : state) : bool :=
  mounted st &&
  match status st with ready | sending => true | _ => false end.

(** [disabled={!signatureDataUrl || status === 'sending'}] *)
Definition button_disabled (st : state) : bool :=
  match signatureDataUrl st with
  | Some (_ :: _) => match status st with sending => true | _ => false end
  | _ => true
  end.

Section Step.

Variable targetPeerId : jsstring.

Definition step (st : state) (e : event) : state * list effect :=
  match e with
  | PeerOpen c => (set_connRef c st, [connect targetPeerId c])
  | ConnOpen c =>
      emit (listeners c (wired st)) (fun s => (setStatus ready s, [])) st
  | ConnError c err =>
      emit (listeners c (wired st))
           (fun s => (setStatus error s, [console_error err])) st
  | ConnClose _ => (st, [])
  | PeerError err => (setStatus error st, [console_error err])
  | SignatureChange v =>
      if signature_area st then (setSignatureDataUrl v st, []) else (st, [])
  | ClickSend =>
      if signature_area st && negb (button_disabled st)
      then sendSignature st else (st, [])
  | Timeout =>
      match timers st with
      | O => (st, [])
      | S n => (setStatus sent (set_timers n st), [])
      end
  | Unmount => if mounted st then (set_unmounted st, [destroy]) else (st, [])
  end.

Fixpoint run (st : state) (evs : list event) : state * list effect :=
  match evs with
  | [] => (st, [])
  | e :: evs' =>
      let (st1, out1) := step st e in
      let (st2, out2) := run st1 evs' in
      (st2, out1 ++ out2)
  end.

End Step.

Definition is_send (f : effect) : bool :=
  match f with send _ _ => true | _ => false end.

Definition send_calls (out : list effect) : nat :=
  length (filter is_send out).

End MobileSignPage.

(** * Both sides over one transport *)

Module Session.

(** What the transport hands to the host for what the client sent: each
    [send] on a connection arrives as one [data] event on it. *)
Definition delivered (out : list MobileSignPage.effect)
  : list QRSignatureModal.event :=
  flat_map (fun f => match f with
                     | MobileSignPage.send c p => [QRSignatureModal.ConnData c p]
                     | _ => []
                     end) out.

(** The wire payload as the specification words it:
    [{ kind: "signature", image: <image> }]. *)
Definition spec_payload (image : jsstring) : jsval :=
  JObj [(js "kind", JStr (js "signature")); (js "image", JStr image)].




Definition example_origin : jsstring := js "https://example.org".
Definition example_pathname : jsstring := js "/igazolas/".

Definition ABC123 : jsstring := js "ABC123".
Definition example_date : jsstring := js "2024-03-11".
Definition image_AAA : jsstring := js "data:image/png;base64,AAA".


(** Host traces and states of the scenarios. *)
Definition host_waiting : QRSignatureModal.state :=
  fst (QRSignatureModal.run QRSignatureModal.init
         [QRSignatureModal.PeerOpen ABC123]).

Definition host_connected : QRSignatureModal.state :=
  fst (QRSignatureModal.run QRSignatureModal.init
         [QRSignatureModal.PeerOpen ABC123; QRSignatureModal.PeerConnection 0]).

(** Two data events with a signature on the one connection. *)
Definition two_payloads : list QRSignatureModal.event :=
  [QRSignatureModal.PeerOpen ABC123;
   QRSignatureModal.PeerConnection 0;
   QRSignatureModal.ConnData 0 (MobileSignPage.payload image_AAA);
   QRSignatureModal.ConnData 0 (MobileSignPage.payload image_AAA)].

(** Two inbound connections, one signature on each. *)
Definition two_connections : list QRSignatureModal.event :=
  [QRSignatureModal.PeerOpen ABC123;
   QRSignatureModal.PeerConnection 0;
   QRSignatureModal.PeerConnection 1;
   QRSignatureModal.ConnData 0 (MobileSignPage.payload image_AAA);
   QRSignatureModal.ConnData 1 (MobileSignPage.payload image_AAA)].

(** Normal completion: the signature arrives, the delayed callback runs,
    the parent then takes the modal down. *)
Definition completion : list QRSignatureModal.event :=
  [QRSignatureModal.PeerOpen ABC123;
   QRSignatureModal.PeerConnection 0;
   QRSignatureModal.ConnData 0 (MobileSignPage.payload image_AAA);
   QRSignatureModal.Timeout;
   QRSignatureModal.Unmount].

(** The same with the parent closing the modal before the delay is over. *)
Definition completion_closed_early : list QRSignatureModal.event :=
  [QRSignatureModal.PeerOpen ABC123;
   QRSignatureModal.PeerConnection 0;
   QRSignatureModal.ConnData 0 (MobileSignPage.payload image_AAA);
   QRSignatureModal.Unmount;
   QRSignatureModal.Timeout].

(** Events that are no inbound connection, for a host left waiting. *)
Definition idle_events : list QRSignatureModal.event :=
  [QRSignatureModal.Timeout;
   QRSignatureModal.ConnData 0 (MobileSignPage.payload image_AAA);
   QRSignatureModal.ConnClose 0;
   QRSignatureModal.PeerOpen ABC123;
   QRSignatureModal.ClickClose;
   QRSignatureModal.Timeout].

(** Events after a failed registration: no [open] among them. *)
Definition after_failure : list QRSignatureModal.event :=
  [QRSignatureModal.Timeout;
   QRSignatureModal.PeerError JNull;
   QRSignatureModal.ClickClose;
   QRSignatureModal.Unmount].

(** Client traces and states of the scenarios. *)
Definition client_ready : MobileSignPage.state :=
  fst (MobileSignPage.run ABC123 MobileSignPage.init
         [MobileSignPage.PeerOpen 0; MobileSignPage.ConnOpen 0]).

Definition client_drawn : MobileSignPage.state :=
  fst (MobileSignPage.run ABC123 client_ready
         [MobileSignPage.SignatureChange (Some image_AAA)]).

Definition client_sending : MobileSignPage.state :=
  fst (MobileSignPage.run ABC123 client_drawn [MobileSignPage.ClickSend]).

Definition client_connecting : MobileSignPage.state :=
  fst (MobileSignPage.run ABC123 MobileSignPage.init
         [MobileSignPage.PeerOpen 0]).

End Session.

(** * Observations on traces of the two components *)

Module Traces.



Definition is_conn_open (e : MobileSignPage.event) : bool :=
  match e with MobileSignPage.ConnOpen _ => true | _ => false end.

(** While [connecting] the host knows no id; in [waiting] it knows one. *)
Definition id_follows_status (st : QRSignatureModal.state) : Prop :=
  (QRSignatureModal.status st = QRSignatureModal.connecting ->
   QRSignatureModal.peerId st = None) /\
  (QRSignatureModal.status st = QRSignatureModal.waiting ->
   QRSignatureModal.peerId st <> None).

Definition is_unmount_or_timeout (e : MobileSignPage.event) : bool :=
  match e with
  | MobileSignPage.Unmount | MobileSignPage.Timeout => true
  | _ => false
  end.

(** Errors reported while a send is in flight. *)
Definition errors_in_flight : list MobileSignPage.event :=
  [MobileSignPage.ConnError 0 JNull; MobileSignPage.PeerError JNull;
   MobileSignPage.ConnClose 0].

(** The client's side of one exchange: its endpoint opens and hands out the
    connection [c], the connection opens, the pad reports the drawing [s],
    the user presses the button. *)
Definition client_script (c : nat) (s : jsstring) : list MobileSignPage.event :=
  [MobileSignPage.PeerOpen c; MobileSignPage.ConnOpen c;
   MobileSignPage.SignatureChange (Some s); MobileSignPage.ClickSend].

(** The host's side up to the arrival of data: its endpoint opens with
    [id], the connection [c] is announced. *)
Definition host_script (id : jsstring) (c : nat) : list QRSignatureModal.event :=
  [QRSignatureModal.PeerOpen id; QRSignatureModal.PeerConnection c].

End Traces.

(** * ParentalAbsenceForm.jsx: validation and the download handler *)

Module ParentalAbsenceForm.

(** The code units [String.prototype.trim] strips: white space and line
    terminators. *)
Definition is_white_space (c : jschar) : bool :=
  ((9 <=? c) && (c <=? 13) || (c =? 32) || (c =? 160) || (c =? 5760)
   || (8192 <=? c) && (c <=? 8202) || (c =? 8232) || (c =? 8233)
   || (c =? 8239) || (c =? 8287) || (c =? 12288) || (c =? 65279))%N.

Fixpoint trim_start (s : jsstring) : jsstring :=
  match s with
  | [] => []
  | c :: rest => if is_white_space c then trim_start rest else s
  end.

Definition trim (s : jsstring) : jsstring :=
  rev (trim_start (rev (trim_start s))).

Definition nonempty (s : jsstring) : bool :=
  match s with [] => false | _ :: _ => true end.

(** [selectedSignature]: [null], an index into [signatures], ['custom'] or
    ['drawn']. *)
Inductive selection :=
| unselected
| gallery (idx : nat)
| custom
| drawn.

(** The state the validation reads. *)
Record form := mk_form {
  childName : jsstring;
  fromDate : jsstring;
  toDate : jsstring;
  selectedSignature : selection;
  customSignatureName : jsstring;
  drawnSignature : jsval
}.

(** [isFormComplete], as the truth value of the [&&] chain. *)
Definition isFormComplete (f : form) : bool :=
  nonempty (childName f) && nonempty (fromDate f) && nonempty (toDate f)
  && match selectedSignature f with unselected => false | _ => true end
  && match selectedSignature f with
     | custom => nonempty (trim (customSignatureName f))
     | _ => true
     end
  && match selectedSignature f with
     | drawn => truthy (drawnSignature f)
     | _ => true
     end.

Inductive target :=
| child_name_input
| from_date_input
| to_date_input
| signature_section.

(** Whether each ref holds an element ([.current] is not [null]). *)
Record refs := mk_refs {
  childNameRef : bool;
  fromDateRef : bool;
  toDateRef : bool;
  signatureSectionRef : bool
}.

Inductive effect :=
| scrollIntoView (t : target)
| focus (t : target)
| setHasAttemptedSubmit (b : bool)
| setShakeButton (b : bool)
| setTimeout (ms : N)
| setIsGenerating (b : bool)
| addImage                      (* doc.addImage(sigDataUrl, ...) *)
| console_warn
| save                          (* doc.save('szuloi-igazolas.pdf') *)
| setShowToast (b : bool)
| console_error
| alert.

(** [scrollToFirstError] *)
Definition scrollToFirstError (f : form) (r : refs) : list effect :=
  if negb (nonempty (childName f)) && childNameRef r
  then [scrollIntoView child_name_input; focus child_name_input]
  else if negb (nonempty (fromDate f)) && fromDateRef r
  then [scrollIntoView from_date_input; focus from_date_input]
  else if negb (nonempty (toDate f)) && toDateRef r
  then [scrollIntoView to_date_input; focus to_date_input]
  else match selectedSignature f with
       | unselected =>
           if signatureSectionRef r then [scrollIntoView signature_section]
           else []
       | _ => []
       end.










Definition all_attached (r : refs) : bool :=
  childNameRef r && fromDateRef r && toDateRef r && signatureSectionRef r.

Definition is_save (e : effect) : bool :=
  match e with save => true | _ => false end.


Definition is_alert (e : effect) : bool :=
  match e with alert => true | _ => false end.

Definition is_toast (e : effect) : bool :=
  match e with setShowToast true => true | _ => false end.

End ParentalAbsenceForm.

(** * renderSignatureToImage: trimming a drawn signature *)

Module SignatureImage.

(** [iData[(py * src.width + px) * 4 + 3]]: the alpha byte of a pixel in
    the RGBA array of [getImageData]; a read past the end is [undefined],
    which compares like a transparent pixel. *)
Definition alpha (iData : list Z) (width px py : nat) : Z :=
  nth ((py * width + px) * 4 + 3) iData 0%Z.

Definition opaque (iData : list Z) (width px py : nat) : bool :=
  (10 <? alpha iData width px py)%Z.

Record box := mk_box { minX : Z; maxX : Z; minY : Z; maxY : Z }.

(** The body of the inner loop. *)
Definition visit (iData : list Z) (width py : nat) (b : box) (px : nat) : box :=
  if opaque iData width px py
  then mk_box (Z.min (minX b) (Z.of_nat px)) (Z.max (maxX b) (Z.of_nat px))
              (Z.min (minY b) (Z.of_nat py)) (Z.max (maxY b) (Z.of_nat py))
  else b.

(** [for (let px = 0; px < src.width; px++)] *)
Definition scan_row (iData : list Z) (width : nat) (b : box) (py : nat) : box :=
  fold_left (visit iData width py) (seq 0 width) b.

(** [for (let py = 0; py < src.height; py++)], from
    [minX = src.width, maxX = 0, minY = src.height, maxY = 0]. *)
Definition scan (iData : list Z) (width height : nat) : box :=
  fold_left (scan_row iData width) (seq 0 height)
    (mk_box (Z.of_nat width) 0 (Z.of_nat height) 0).

(** What is resolved: the image as it came, or the rectangle
    [drawImage(src, sx, sy, sw, sh, 0, 0, sw, sh)] copies out of it. *)
Inductive outcome :=
| untrimmed
| cropped (sx sy sw sh : Z).

Definition pad : Z := 10.

Definition trim_drawn (iData : list Z) (width height : nat) : outcome :=
  let b := scan iData width height in
  if ((maxX b <=? minX b) || (maxY b <=? minY b))%Z then untrimmed
  else
    let x0 := Z.max 0 (minX b - pad) in
    let y0 := Z.max 0 (minY b - pad) in
    let x1 := Z.min (Z.of_nat width) (maxX b + pad) in
    let y1 := Z.min (Z.of_nat height) (maxY b + pad) in
    cropped x0 y0 (x1 - x0) (y1 - y0).

(** The pixels in the order the loops visit them. *)
Definition pixels (width height : nat) : list (nat * nat) :=
  flat_map (fun py => map (fun px => (px, py)) (seq 0 width)) (seq 0 height).

Definition visit_pixel (iData : list Z) (width : nat) (b : box) (p : nat * nat)
  : box :=
  visit iData width (snd p) b (fst p).

(** The visible pixels of the image. *)
Definition inked (iData : list Z) (width height : nat) (px py : nat) : Prop :=
  px < width /\ py < height /\ opaque iData width px py = true.

(** A 3 x 3 image with ink at (0,0) and (2,1). *)
Definition two_dots : list Z :=
  [0;0;0;255; 0;0;0;0; 0;0;0;0;
   0;0;0;0;   0;0;0;0; 0;0;0;255;
   0;0;0;0;   0;0;0;0; 0;0;0;0]%Z.

End SignatureImage.

(** * ParentalAbsenceForm.jsx: the year in the preview and in the PDF *)

Module DateText.

Fixpoint uint_digits (d : Decimal.uint) : jsstring :=
  match d with
  | Decimal.Nil => []
  | Decimal.D0 d => 48%N :: uint_digits d
  | Decimal.D1 d => 49%N :: uint_digits d
  | Decimal.D2 d => 50%N :: uint_digits d
  | Decimal.D3 d => 51%N :: uint_digits d
  | Decimal.D4 d => 52%N :: uint_digits d
  | Decimal.D5 d => 53%N :: uint_digits d
  | Decimal.D6 d => 54%N :: uint_digits d
  | Decimal.D7 d => 55%N :: uint_digits d
  | Decimal.D8 d => 56%N :: uint_digits d
  | Decimal.D9 d => 57%N :: uint_digits d
  end.

(** [toString()] of a number that is an integer, or [NaN] ([None]). *)
Definition number_toString (v : option Z) : jsstring :=
  match v with
  | None => js "NaN"
  | Some z =>
      if (z <? 0)%Z then 45%N :: uint_digits (N.to_uint (Z.to_N (- z)))
      else uint_digits (N.to_uint (Z.to_N z))
  end.

(** [s.slice(-k)] for [k > 0]. *)
Definition slice_from_end (k : nat) (s : jsstring) : jsstring :=
  skipn (length s - k) s.

Section Dates.

(** [new Date(dateStr).getFullYear()], the platform's reading of a date
    string; [None] is the [NaN] of an invalid date. *)
Variable getFullYear : jsstring -> option Z.

(** [formatYear] *)
Definition formatYear (dateStr : jsstring) : jsstring :=
  match dateStr with
  | [] => js "...."
  | _ :: _ => slice_from_end 2 (number_toString (getFullYear dateStr))
  end.

(** [fullYear], local to [handlePrint] *)
Definition fullYear (dateStr : jsstring) : jsstring :=
  match dateStr with
  | [] => js "...."
  | _ :: _ => number_toString (getFullYear dateStr)
  end.

(** The year of the on-screen preview: the text [202] followed by the
    span holding [formatYear(dateStr)]. *)
Definition preview_year (dateStr : jsstring) : jsstring :=
  js "202" ++ formatYear dateStr.

End Dates.

(** The two texts for a date whose year is [y], compared. *)
Definition year_texts_ok (y : Z) : bool :=
  let d := js "d" in
  let g := fun _ : jsstring => Some y in
  str_eqb (formatYear g d)
          [(48 + Z.to_N ((y / 10) mod 10))%N; (48 + Z.to_N (y mod 10))%N]
  && (length (fullYear g d) =? 4) && (length (preview_year g d) =? 5).

(** The same for the [n] years from [y] on. *)
Fixpoint years_ok (n : nat) (y : Z) : bool :=
  match n with
  | O => true
  | S k => year_texts_ok y && years_ok k (y + 1)
  end.

End DateText.

(** * SignaturePad.jsx *)

Module SignaturePad.

Section Pad.

(** Pointer positions and the canvas bitmap are the platform's; [stroke]
    is the path drawn by one [draw] (from the last point towards the new
    one), [blank] the cleared canvas, [toDataURL] the PNG export. *)
Variables point canvas : Type.
Variable blank : canvas.
Variable stroke : canvas -> point -> point -> canvas.
Variable toDataURL : canvas -> jsstring.

(** Whether the parent passed [onSignatureChange]. *)
Variable has_callback : bool.

Record state := mk_state {
  isDrawing : bool;               (* useState(false) *)
  hasStrokes : bool;              (* useState(false) *)
  lastPoint : option point;       (* lastPointRef.current *)
  points : list point;            (* pointsRef.current *)
  bitmap : canvas
}.

Definition init : state := mk_state false false None [] blank.

Inductive event :=
| Start (p : point)     (* onMouseDown, onTouchStart *)
| Move (p : point)      (* onMouseMove, onTouchMove *)
| End_                  (* onMouseUp, onMouseLeave, onTouchEnd *)
| ClickClear            (* the clear button, rendered when hasStrokes *)
| Resize.               (* window resize: canvas.width is assigned *)

Inductive effect :=
| preventDefault
| onSignatureChange (v : option jsstring)
| uncaught.             (* TypeError on last.x *)

Definition report (v : option jsstring) : list effect :=
  if has_callback then [onSignatureChange v] else [].

Definition step (st : state) (e : event) : state * list effect :=
  match e with
  | Start p =>
      (mk_state true (hasStrokes st) (Some p) [p] (bitmap st), [preventDefault])
  | Move p =>
      if isDrawing st then
        match lastPoint st with
        | Some last =>
            (mk_state true (hasStrokes st) (Some p) (points st ++ [p])
               (stroke (bitmap st) last p), [preventDefault])
        | None => (st, [preventDefault; uncaught])
        end
      else (st, [])
  | End_ =>
      if isDrawing st then
        (mk_state false true None (points st) (bitmap st),
         report (Some (toDataURL (bitmap st))))
      else (st, [])
  | ClickClear =>
      if hasStrokes st then
        (mk_state (isDrawing st) false (lastPoint st) [] blank, report None)
      else (st, [])
  | Resize =>
      (mk_state (isDrawing st) (hasStrokes st) (lastPoint st) (points st) blank,
       [])
  end.

Fixpoint run (st : state) (evs : list event) : state * list effect :=
  match evs with
  | [] => (st, [])
  | e :: evs' =>
      let (st1, out1) := step st e in
      let (st2, out2) := run st1 evs' in
      (st2, out1 ++ out2)
  end.

Definition is_uncaught (f : effect) : bool :=
  match f with uncaught => true | _ => false end.

Definition is_export (f : effect) : bool :=
  match f with onSignatureChange (Some _) => true | _ => false end.

Definition is_start (e : event) : bool :=
  match e with Start _ => true | _ => false end.

Definition exports (out : list effect) : nat := length (filter is_export out).

Definition starts (evs : list event) : nat := length (filter is_start evs).

(** What the parent holds after the reports in [out], starting from [v]. *)
Definition held (v : option jsstring) (out : list effect) : option jsstring :=
  fold_left (fun acc f => match f with
                          | onSignatureChange v' => v'
                          | _ => acc
                          end) out v.

Definition is_some (v : option jsstring) : bool :=
  match v with Some _ => true | None => false end.

(** The mobile page's view of the pad: [onSignatureChange] is its
    [setSignatureDataUrl]. *)
Definition to_page (out : list effect) : list MobileSignPage.event :=
  flat_map (fun f => match f with
                     | onSignatureChange v => [MobileSignPage.SignatureChange v]
                     | _ => []
                     end) out.

End Pad.

(** A stand-in platform for examples: points are numbers, the canvas
    counts its strokes, and the export is a fixed PNG data URL prefix. *)
Definition example_export (strokes : nat) : jsstring :=
  js "data:image/png;base64,".

Definition example_stroke (strokes p q : nat) : nat := S strokes.

Arguments mk_state {point canvas}.
Arguments isDrawing {point canvas}.
Arguments hasStrokes {point canvas}.
Arguments lastPoint {point canvas}.
Arguments points {point canvas}.
Arguments bitmap {point canvas}.
Arguments init {point canvas}.
Arguments Start {point}.
Arguments Move {point}.
Arguments End_ {point}.
Arguments ClickClear {point}.
Arguments Resize {point}.
Arguments step {point canvas}.
Arguments run {point canvas}.
Arguments is_start {point}.
Arguments starts {point}.

End SignaturePad.

(** * ParentalAbsenceForm.jsx: the cookie helpers *)

Module Cookies.

(** The characters of a name that stand for themselves in the regular
    expression [getCookie] builds from it: letters, digits, underscore. *)
Definition is_word (c : jschar) : bool :=
  ((48 <=? c) && (c <=? 57) || (65 <=? c) && (c <=? 90)
   || (97 <=? c) && (c <=? 122) || (c =? 95))%N.

(** [([^;]+)] : the longest run free of [;]. *)
Fixpoint value_run (s : jsstring) : jsstring :=
  match s with
  | [] => []
  | c :: rest => if (c =? 59)%N then [] else c :: value_run rest
  end.

(** [name=([^;]+)] at the head of [s]. *)
Definition after_key (name s : jsstring) : option jsstring :=
  match Router.strip_prefix (name ++ [61%N]) s with
  | Some rest =>
      match value_run rest with
      | [] => None
      | c :: v => Some (c :: v)
      end
  | None => None
  end.

(** The pattern [(^| )name=([^;]+)] tried at one position of the input:
    first the alternative [^], open only at position 0, then the
    alternative of one space. *)
Definition match_here (name : jsstring) (at_start : bool) (s : jsstring)
  : option jsstring :=
  match (if at_start then after_key name s else None) with
  | Some v => Some v
  | None =>
      match s with
      | c :: s' => if (c =? 32)%N then after_key name s' else None
      | [] => None
      end
  end.

(** [cookie.match(re)]: the leftmost position where the pattern matches,
    reduced to [match[2]]. *)
Fixpoint search (name : jsstring) (at_start : bool) (s : jsstring)
  : option jsstring :=
  match match_here name at_start s with
  | Some v => Some v
  | None =>
      match s with
      | [] => None
      | _ :: rest => search name false rest
      end
  end.

Section Helpers.

(** The platform's [encodeURIComponent], and [decodeURIComponent] with
    [None] for its URIError. *)
Variable encodeURIComponent : jsstring -> jsstring.
Variable decodeURIComponent : jsstring -> option jsstring.

(** [getCookie(name)] on the value of [document.cookie], for a [name] of
    word characters; [None] when [decodeURIComponent] raises. *)
Definition getCookie (name cookie : jsstring) : option jsstring :=
  match search name true cookie with
  | Some v => decodeURIComponent v
  | None => Some []
  end.

(** The browser's cookies visible to the page, as name and value pairs, and
    what [document.cookie] reads: the pairs joined by [; ]. *)
Definition jar := list (jsstring * jsstring).

Definition entry (kv : jsstring * jsstring) : jsstring :=
  fst kv ++ [61%N] ++ snd kv.

Fixpoint document_cookie (j : jar) : jsstring :=
  match j with
  | [] => []
  | kv :: rest =>
      match rest with
      | [] => entry kv
      | _ :: _ => entry kv ++ [59%N; 32%N] ++ document_cookie rest
      end
  end.

(** What follows a cookie in [document.cookie]. *)
Definition following (rest : jar) : jsstring :=
  match rest with
  | [] => []
  | _ :: _ => [59%N; 32%N] ++ document_cookie rest
  end.

(** What the assignment of [name=value; expires=...; path=/; ...] to
    [document.cookie] does to the jar: the cookie of that name is replaced
    where it stands, or added at the end. *)
Fixpoint store (name value : jsstring) (j : jar) : jar :=
  match j with
  | [] => [(name, value)]
  | (k, v) :: rest =>
      if str_eqb k name then (name, value) :: rest
      else (k, v) :: store name value rest
  end.

(** [setCookie(name, value)] with the default of 365 days. *)
Definition setCookie (name value : jsstring) (j : jar) : jar :=
  store name (encodeURIComponent value) j.

End Helpers.

(** The first cookie of that name holding a non-empty value. *)
Fixpoint find_value (name : jsstring) (j : jar) : option jsstring :=
  match j with
  | [] => None
  | (k, v) :: rest =>
      if str_eqb k name
      then match v with
           | [] => find_value name rest
           | c :: v' => Some (c :: v')
           end
      else find_value name rest
  end.

Definition has_char (c : jschar) (s : jsstring) : bool := existsb (N.eqb c) s.

(** Names without space, [;] or [=], values without space or [;]. *)
Definition well_formed_entry (kv : jsstring * jsstring) : bool :=
  negb (has_char 32%N (fst kv)) && negb (has_char 59%N (fst kv))
  && negb (has_char 61%N (fst kv))
  && negb (has_char 32%N (snd kv)) && negb (has_char 59%N (snd kv)).

Definition well_formed_jar (j : jar) : bool := forallb well_formed_entry j.

Definition child_name_cookie : jsstring := js "ovikreta_child_name".

Definition example_jar : jar :=
  [(js "theme", js "dark"); (js "ovikreta_child_name", js "Bob");
   (js "lang", js "hu")].

End Cookies.

(** * ParentalAbsenceForm.jsx: the form as parent of the QR modal *)

Module FormWithModal.

Import ParentalAbsenceForm.

(** The form's fields and [showQRModal]. *)
Record page := mk_page {
  fields : form;
  showQRModal : bool
}.

Definition setDrawnSignature (v : jsval) (f : form) : form :=
  mk_form (childName f) (fromDate f) (toDate f) (selectedSignature f)
          (customSignatureName f) v.

(** The props the form passes to the modal:
    [onSignature={(dataUrl) => { setDrawnSignature(dataUrl); setShowQRModal(false); }}]
    and [onClose={() => setShowQRModal(false)}]. *)
Definition on_modal_effect (p : page) (e : QRSignatureModal.effect) : page :=
  match e with
  | QRSignatureModal.onSignature v =>
      mk_page (setDrawnSignature v (fields p)) false
  | QRSignatureModal.onClose => mk_page (fields p) false
  | _ => p
  end.

Definition after_modal (p : page) (out : list QRSignatureModal.effect) : page :=
  fold_left on_modal_effect out p.

(** A form that lacks nothing but, possibly, its drawn signature. *)
Definition awaits_drawing (f : form) : bool :=
  nonempty (childName f) && nonempty (fromDate f) && nonempty (toDate f)
  && match selectedSignature f with drawn => true | _ => false end.

End FormWithModal.

(** * Properties of the router *)

Module RouterClaims.

Lemma strip_prefix_app (p r : jsstring) :
  Router.strip_prefix p (p ++ r) = Some r.
Proof.
  induction p as [|a p IH]; simpl; [reflexivity|].
  now rewrite N.eqb_refl.
Qed.













End RouterClaims.

(** * Properties of the host *)

Module HostFacts.

Import QRSignatureModal.

(** The guard [data &&] keeps both property reads away from [null] and
    [undefined]: the condition never raises. *)
Lemma signature_check_total (data : jsval) :
  signature_check data = Some (accepts data).
Proof.
  unfold accepts, signature_check.
  destruct data as [| |b|z|s|l|fs]; simpl; try reflexivity.
  - destruct b; reflexivity.
  - destruct (z =? 0)%Z; reflexivity.
  - destruct s; reflexivity.
  - destruct (strict_eq_str (lookup (js "type") fs) (js "signature"));
      [|reflexivity].
    destruct (truthy (lookup (js "dataUrl") fs)); reflexivity.
Qed.


Lemma on_data_accepts (data : jsval) (st : state) :
  on_data data st =
  if accepts data
  then (set_timers (S (timers st)) (setStatus received st),
        [onSignature (dataUrl_of data); setTimeout 500])
  else (st, []).
Proof.
  unfold on_data. rewrite signature_check_total.
  destruct (accepts data); reflexivity.
Qed.

(** [n] listeners on one data event: nothing on a payload that is not
    accepted; otherwise [n] calls and [n] timers, and [received]. *)
Lemma emit_on_data (n : nat) (data : jsval) (st : state) :
  emit n (on_data data) st =
  if accepts data
  then (match n with
        | O => st
        | S _ => set_timers (n + timers st) (setStatus received st)
        end, burst (dataUrl_of data) n)
  else (st, []).
Proof.
  revert st. induction n as [|k IH]; intros st; cbn [emit].
  - destruct (accepts data); reflexivity.
  - rewrite on_data_accepts.
    destruct (accepts data) eqn:Ha.
    + rewrite IH. unfold burst. cbn [repeat concat app]. f_equal.
      destruct st as [pid sts er m w t], m, k;
        unfold set_timers, setStatus; cbn; f_equal; lia.
    + rewrite IH. reflexivity.
Qed.

Lemma run_cons (st : state) (e : event) (evs : list event) :
  run st (e :: evs) =
  (fst (run (fst (step st e)) evs),
   snd (step st e) ++ snd (run (fst (step st e)) evs)).
Proof.
  simpl. destruct (step st e) as [st1 out1]. simpl.
  destruct (run st1 evs) as [st2 out2]. reflexivity.
Qed.

Lemma onSignature_calls_app (a b : list effect) :
  onSignature_calls (a ++ b) = onSignature_calls a + onSignature_calls b.
Proof. unfold onSignature_calls. now rewrite filter_app, length_app. Qed.

Lemma destroy_calls_app (a b : list effect) :
  destroy_calls (a ++ b) = destroy_calls a + destroy_calls b.
Proof. unfold destroy_calls. now rewrite filter_app, length_app. Qed.

Lemma onSignature_calls_burst (v : jsval) (n : nat) :
  onSignature_calls (burst v n) = n.
Proof.
  unfold burst. induction n as [|k IH]; [reflexivity|].
  cbn [repeat concat]. rewrite onSignature_calls_app, IH. reflexivity.
Qed.

Lemma destroy_calls_burst (v : jsval) (n : nat) :
  destroy_calls (burst v n) = 0.
Proof.
  unfold burst. induction n as [|k IH]; [reflexivity|].
  cbn [repeat concat]. rewrite destroy_calls_app, IH. reflexivity.
Qed.

Lemma uncaught_burst (v : jsval) (n : nat) :
  filter is_uncaught (burst v n) = [].
Proof.
  unfold burst. induction n as [|k IH]; [reflexivity|].
  cbn [repeat concat]. rewrite filter_app, IH. reflexivity.
Qed.

Lemma is_wired_listeners (c : conn) (st : state) :
  is_wired c st = true <-> listeners c (wired st) <> 0.
Proof.
  unfold is_wired. rewrite negb_true_iff. apply Nat.eqb_neq.
Qed.

(** Case analysis of one step: every event, with the branches of its
    handler resolved. *)
Ltac state_cases st :=
  cbn [step];
  try rewrite emit_on_data;
  unfold setStatus, setPeerId, setError, add_wired, set_timers,
         set_unmounted;
  destruct st as [pid sts er m w t];
  destruct m, t;
  cbn [peerId status error mounted wired timers];
  repeat match goal with
         | |- context [if ?b then _ else _] => destruct b eqn:?
         | |- context [match listeners ?c ?w with _ => _ end] =>
             destruct (listeners c w) eqn:?
         end;
  cbn [fst snd peerId status error mounted wired timers];
  rewrite ?onSignature_calls_burst, ?destroy_calls_burst, ?uncaught_burst.

Ltac step_cases st e :=
  destruct e as [id|c|c data|c|err| | |]; state_cases st.

(** The effect's wiring: a step adds a connection to [wired] only on a
    [connection] event. *)
Lemma step_wired (st : state) (e : event) :
  wired (fst (step st e)) =
  match e with PeerConnection c => c :: wired st | _ => wired st end.
Proof. step_cases st e; reflexivity. Qed.

Lemma step_onSignature_calls (st : state) (e : event) :
  onSignature_calls (snd (step st e)) =
  match e with
  | ConnData c data => if accepts data then listeners c (wired st) else 0
  | _ => 0
  end.
Proof. step_cases st e; try reflexivity; cbn; congruence. Qed.

Lemma step_accounting (st : state) (e : event) :
  destroy_calls (snd (step st e)) + timers (fst (step st e))
    + b2n (mounted (fst (step st e)))
  = timers st + onSignature_calls (snd (step st e)) + b2n (mounted st).
Proof. step_cases st e; cbn; lia. Qed.

Lemma run_accounting (st : state) (evs : list event) :
  destroy_calls (snd (run st evs)) + timers (fst (run st evs))
    + b2n (mounted (fst (run st evs)))
  = timers st + onSignature_calls (snd (run st evs)) + b2n (mounted st).
Proof.
  revert st. induction evs as [|e evs IH]; intros st; [cbn; lia|].
  rewrite run_cons. cbn [fst snd].
  rewrite destroy_calls_app, onSignature_calls_app.
  specialize (IH (fst (step st e))).
  pose proof (step_accounting st e). lia.
Qed.

Lemma step_timers_bound (st : state) (e : event) :
  timers (fst (step st e)) <= timers st + onSignature_calls (snd (step st e)).
Proof. step_cases st e; cbn; lia. Qed.

Lemma run_timers_bound (st : state) (evs : list event) :
  timers (fst (run st evs)) <= timers st + onSignature_calls (snd (run st evs)).
Proof.
  revert st. induction evs as [|e evs IH]; intros st; [cbn; lia|].
  rewrite run_cons. cbn [fst snd]. rewrite onSignature_calls_app.
  specialize (IH (fst (step st e))).
  pose proof (step_timers_bound st e). lia.
Qed.

Lemma step_no_uncaught (st : state) (e : event) :
  filter is_uncaught (snd (step st e)) = [].
Proof. step_cases st e; reflexivity. Qed.

Lemma run_no_uncaught (st : state) (evs : list event) :
  filter is_uncaught (snd (run st evs)) = [].
Proof.
  revert st. induction evs as [|e evs IH]; intros st; [reflexivity|].
  rewrite run_cons. cbn [snd].
  now rewrite filter_app, step_no_uncaught, IH.
Qed.

End HostFacts.

Module HostClaims.

Import QRSignatureModal HostFacts.

(** The [error] message, once set, stays: no handler clears it. *)
Lemma step_error_sticky (st : state) (e : event) :
  error st = Some error_message -> error (fst (step st e)) = Some error_message.
Proof. step_cases st e; cbn; auto. Qed.

Lemma run_error_sticky (st : state) (evs : list event) :
  error st = Some error_message ->
  error (fst (run st evs)) = Some error_message.
Proof.
  revert st. induction evs as [|e evs IH]; intros st H; [exact H|].
  rewrite run_cons. cbn [fst]. apply IH. now apply step_error_sticky.
Qed.

(** Only the [error] handler assigns [error]. *)
Lemma step_error_inv (st : state) (e : event) :
  error (fst (step st e)) <> error st -> exists err, e = PeerError err.
Proof.
  intros H. destruct e as [id|c|c data|c|err| | |];
    try (exists err; reflexivity); exfalso; apply H; clear H;
    state_cases st; reflexivity.
Qed.

(** Only the [open] handler assigns [peerId]. *)
Lemma step_peerId (st : state) (e : event) :
  is_open e = false -> peerId (fst (step st e)) = peerId st.
Proof. step_cases st e; cbn; auto; discriminate. Qed.

Lemma run_peerId (st : state) (evs : list event) :
  forallb (fun e => negb (is_open e)) evs = true ->
  peerId (fst (run st evs)) = peerId st.
Proof.
  revert st. induction evs as [|e evs IH]; intros st H; [reflexivity|].
  cbn [forallb] in H. apply andb_true_iff in H as [He H].
  rewrite run_cons. cbn [fst]. rewrite IH by exact H.
  apply step_peerId. now destruct (is_open e).
Qed.

Lemma render_no_peerId (origin pathname : jsstring) (st : state) :
  peerId st = None -> qr_code (render origin pathname st) = None.
Proof.
  intros H. unfold render. cbn [qr_code]. rewrite H.
  destruct (status st); reflexivity.
Qed.

Lemma render_error_panel (origin pathname : jsstring) (st : state) :
  error st = Some error_message ->
  error_panel (render origin pathname st) = Some error_message.
Proof. intros H. unfold render. cbn [error_panel]. now rewrite H. Qed.


Lemma step_status_inv (st : state) (e : event) :
  status (fst (step st e)) <> status st ->
  (exists id, e = PeerOpen id) \/ (exists c, e = PeerConnection c) \/
  (exists c d, e = ConnData c d /\ accepts d = true /\ is_wired c st = true).
Proof.
  intros H. destruct e as [id|c|c data|c|err| | |];
    [left; eauto | right; left; eauto | | | | | | ].
  - right; right. exists c, data.
    cbn [step] in H. rewrite emit_on_data in H.
    destruct (accepts data); [|cbn in H; congruence].
    split; [reflexivity|]. split; [reflexivity|].
    apply is_wired_listeners. intros Hz. rewrite Hz in H. now apply H.
  - exfalso; apply H; reflexivity.
  - exfalso; apply H; clear H. state_cases st; reflexivity.
  - exfalso; apply H; clear H. state_cases st; reflexivity.
  - exfalso; apply H; clear H. state_cases st; reflexivity.
  - exfalso; apply H; clear H. state_cases st; reflexivity.
Qed.

Lemma step_received_inv (st : state) (e : event) :
  status st <> received -> status (fst (step st e)) = received ->
  exists c d, e = ConnData c d /\ accepts d = true /\ is_wired c st = true.
Proof.
  intros Hs H.
  destruct (step_status_inv st e) as [(id & ->)|[(c & ->)|Hd]];
    [congruence| | |exact Hd]; exfalso; revert H; cbn [step];
    unfold setStatus, setPeerId, add_wired; destruct (mounted st) eqn:Hm;
    cbn [mounted status fst]; rewrite ?Hm; cbn [status]; congruence.
Qed.

(** A host that no connection was announced to keeps [waiting] over any
    event that is not a [connection]. *)
Lemma step_waiting (st : state) (e : event) :
  status st = waiting -> wired st = [] -> is_connection e = false ->
  status (fst (step st e)) = waiting /\ wired (fst (step st e)) = [] /\
  onSignature_calls (snd (step st e)) = 0.
Proof.
  intros Hs Hw He.
  destruct st as [pid sts er m w t]. cbn [status wired] in Hs, Hw. subst sts w.
  destruct e as [id|c|c data|c|err| | |]; try discriminate He; clear He;
    cbn [step]; try rewrite emit_on_data;
    cbn [wired listeners count_occ];
    unfold setStatus, setPeerId, setError, set_timers, set_unmounted;
    destruct m, t; try destruct (accepts data);
    cbn; repeat split.
Qed.

Lemma run_waiting (st : state) (evs : list event) :
  status st = waiting -> wired st = [] ->
  forallb (fun e => negb (is_connection e)) evs = true ->
  status (fst (run st evs)) = waiting /\
  onSignature_calls (snd (run st evs)) = 0.
Proof.
  revert st. induction evs as [|e evs IH]; intros st Hs Hw H; [now split|].
  cbn [forallb] in H. apply andb_true_iff in H as [He H].
  apply negb_true_iff in He.
  destruct (step_waiting st e Hs Hw He) as (Hs1 & Hw1 & Hn1).
  destruct (IH _ Hs1 Hw1 H) as [Hs2 Hn2].
  rewrite run_cons. cbn [fst snd].
  rewrite onSignature_calls_app, Hn1, Hn2. now split.
Qed.

(** C2, as amended: the host calls [onSignature] for every data event that
    carries an accepted signature payload, once per [connection] event that
    announced its connection before; the handler has no guard that would stop
    after the first. The number of calls over a session is the number of
    such deliveries, so it is at most one exactly when at most one
    arrives. *)
Theorem onSignature_once_per_accepted_payload
  (st : state) (evs : list event) :
  onSignature_calls (snd (run st evs)) = deliveries (wired st) evs /\
  onSignature_calls (snd (run init evs)) = deliveries [] evs.
Proof.
  assert (H : forall l s,
             onSignature_calls (snd (run s l)) = deliveries (wired s) l).
  { induction l as [|e l IH]; intros s; [reflexivity|].
    rewrite run_cons. cbn [snd].
    rewrite onSignature_calls_app, IH, step_wired, step_onSignature_calls.
    destruct e; reflexivity. }
  split; [apply H|apply (H evs init)].
Qed.

(** C2 as stated fails: two signature payloads on one connection, or one on
    each of two connections, make the host call [onSignature] twice. *)
Lemma onSignature_called_twice :
  snd (run init Session.two_payloads) =
    [onSignature (JStr Session.image_AAA); setTimeout 500;
     onSignature (JStr Session.image_AAA); setTimeout 500] /\
  onSignature_calls (snd (run init Session.two_payloads)) = 2 /\
  onSignature_calls (snd (run init Session.two_connections)) = 2.
Proof. repeat split; vm_compute; reflexivity. Qed.



(** C5, as amended: over any sequence of events from mount, no handler
    raises; the cleanup of a mounted host calls [peer.destroy()] once; and
    the calls to [destroy] made so far plus the delayed ones still pending are
    one per accepted signature plus one for the unmount. A session that
    accepted no signature (unmounted from connecting, waiting or connected)
    therefore sees exactly one [destroy]; one that did sees the delayed
    call in addition to the one of the cleanup; an unmounted host has seen
    at least one. *)
Theorem destroy_accounting (evs : list event) :
  destroy_calls (snd (run init evs)) + timers (fst (run init evs))
    = onSignature_calls (snd (run init evs))
      + b2n (negb (mounted (fst (run init evs)))) /\
  timers (fst (run init evs)) <= onSignature_calls (snd (run init evs)) /\
  (onSignature_calls (snd (run init evs)) = 0 ->
   destroy_calls (snd (run init evs))
     = b2n (negb (mounted (fst (run init evs))))) /\
  (mounted (fst (run init evs)) = false ->
   1 <= destroy_calls (snd (run init evs))) /\
  filter is_uncaught (snd (run init evs)) = [] /\
  filter is_uncaught (snd (step (fst (run init evs)) Unmount)) = [] /\
  destroy_calls (snd (step (fst (run init evs)) Unmount))
    = b2n (mounted (fst (run init evs))) /\
  mounted (fst (step (fst (run init evs)) Unmount)) = false.
Proof.
  pose proof (run_accounting init evs) as Hacc.
  pose proof (run_timers_bound init evs) as Hbound.
  cbn [timers mounted init b2n] in Hacc, Hbound.
  assert (Heq : destroy_calls (snd (run init evs)) + timers (fst (run init evs))
                = onSignature_calls (snd (run init evs))
                  + b2n (negb (mounted (fst (run init evs))))).
  { destruct (mounted (fst (run init evs))); cbn [b2n negb] in *; lia. }
  repeat split.
  - exact Heq.
  - exact Hbound.
  - intros H0. lia.
  - intros Hm. rewrite Hm in Heq. cbn [b2n negb] in Heq. lia.
  - apply run_no_uncaught.
  - apply step_no_uncaught.
  - cbn [step]. destruct (mounted (fst (run init evs))); reflexivity.
  - cbn [step]. destruct (mounted (fst (run init evs))) eqn:Hm;
      [reflexivity|exact Hm].
Qed.

(** C5 as stated fails: on normal completion [peer.destroy()] is called
    twice, by the delayed callback and by the cleanup, in either order. *)
Lemma destroy_called_twice_on_completion :
  snd (run init Session.completion) =
    [onSignature (JStr Session.image_AAA); setTimeout 500; destroy; destroy] /\
  destroy_calls (snd (run init Session.completion)) = 2 /\
  destroy_calls (snd (run init Session.completion_closed_early)) = 2.
Proof. repeat split; vm_compute; reflexivity. Qed.

(** C6: when the transport reports an error to a mounted host that has no
    id yet, [error] is set at once (the status keeps its value) and the
    error panel is shown; as long as no [open] follows (registration failed),
    no QR code is rendered; and whatever follows, [error] stays set: no
    handler clears it or starts a new endpoint. *)
Theorem registration_failure_shows_error
  (origin pathname : jsstring) (st : state) (err : jsval) (evs : list event) :
  mounted st = true -> peerId st = None ->
  forallb (fun e => negb (is_open e)) evs = true ->
  step st (PeerError err)
    = (mk_state None (status st) (Some error_message) true (wired st) (timers st),
       [console_error err]) /\
  error_panel (render origin pathname (fst (run st (PeerError err :: evs))))
    = Some error_message /\
  qr_code (render origin pathname (fst (run st (PeerError err :: evs))))
    = None /\
  (forall evs', error (fst (run st (PeerError err :: evs')))
                = Some error_message).
Proof.
  intros Hm Hp Hno.
  assert (Hstep : step st (PeerError err)
                  = (mk_state None (status st) (Some error_message) true
                       (wired st) (timers st), [console_error err])).
  { cbn [step]. unfold setError. now rewrite Hm, Hp. }
  split; [exact Hstep|].
  assert (Hst : forall l, error (fst (run st (PeerError err :: l)))
                          = Some error_message).
  { intros l. rewrite run_cons, Hstep. cbn [fst].
    now apply run_error_sticky. }
  repeat split.
  - apply render_error_panel, Hst.
  - apply render_no_peerId. rewrite run_cons, Hstep. cbn [fst].
    now rewrite run_peerId.
  - exact Hst.
Qed.

Lemma registration_failure_shows_error_witness :
  mounted init = true /\ peerId init = None /\
  forallb (fun e => negb (is_open e)) Session.after_failure = true /\
  step init (PeerError JNull)
    = (mk_state None connecting (Some error_message) true [] 0,
       [console_error JNull]) /\
  error_panel (render Session.example_origin Session.example_pathname
                 (fst (run init (PeerError JNull :: Session.after_failure))))
    = Some error_message /\
  qr_code (render Session.example_origin Session.example_pathname
             (fst (run init (PeerError JNull :: Session.after_failure))))
    = None.
Proof.
  split; [reflexivity|]. split; [reflexivity|]. split; [reflexivity|].
  pose proof (registration_failure_shows_error
                Session.example_origin Session.example_pathname init JNull
                Session.after_failure eq_refl eq_refl eq_refl)
    as (Hs & Hp & Hq & _).
  repeat split; assumption.
Defined.

(** C7: a host in [waiting] that no connection was announced to stays in
    [waiting], and calls nothing, over any sequence of events without a
    [connection]: timer callbacks, data, close, clicks. Of a single event,
    only a [connection] takes it out of [waiting], and only a transport
    error changes [error]. *)
Theorem waiting_until_connection (st : state) (evs : list event) :
  status st = waiting -> wired st = [] ->
  forallb (fun e => negb (is_connection e)) evs = true ->
  status (fst (run st evs)) = waiting /\
  onSignature_calls (snd (run st evs)) = 0 /\
  (forall e, status (fst (step st e)) <> waiting ->
             exists c, e = PeerConnection c) /\
  (forall e, error (fst (step st e)) <> error st ->
             exists err, e = PeerError err).
Proof.
  intros Hs Hw Hno.
  destruct (run_waiting st evs Hs Hw Hno) as [H1 H2].
  repeat split; trivial.
  - intros e He. destruct (is_connection e) eqn:Hc.
    + destruct e as [|c| | | | | |]; try discriminate. exists c. reflexivity.
    + exfalso. apply He. now apply step_waiting.
  - intros e. apply step_error_inv.
Qed.

Lemma waiting_until_connection_witness :
  status Session.host_waiting = waiting /\
  wired Session.host_waiting = [] /\
  forallb (fun e => negb (is_connection e)) Session.idle_events = true /\
  status (fst (run Session.host_waiting Session.idle_events)) = waiting /\
  onSignature_calls (snd (run Session.host_waiting Session.idle_events)) = 0.
Proof.
  split; [reflexivity|]. split; [reflexivity|]. split; [reflexivity|].
  pose proof (waiting_until_connection Session.host_waiting Session.idle_events
                eq_refl eq_refl eq_refl) as (H1 & H2 & _).
  split; assumption.
Defined.

End HostClaims.

(** * Properties of the client *)

Module ClientClaims.

Import MobileSignPage.

Lemma setStatus_idem (x : status_t) (st : state) :
  setStatus x (setStatus x st) = setStatus x st.
Proof. unfold setStatus. destruct (mounted st) eqn:Hm; cbn; now rewrite ?Hm. Qed.

(** [n] listeners that set the same status: one assignment, [n] times the
    effects. *)
Lemma emit_setStatus (n : nat) (x : status_t) (out : list effect) (st : state) :
  emit n (fun s => (setStatus x s, out)) st =
  (match n with O => st | S _ => setStatus x st end, concat (repeat out n)).
Proof.
  revert st. induction n as [|k IH]; intros st; cbn [emit]; [reflexivity|].
  rewrite IH. cbn [repeat concat]. f_equal.
  destruct k; [reflexivity|apply setStatus_idem].
Qed.

Lemma wired_has_listener (c : conn) (st : state) :
  is_wired c st = true <-> listeners c (wired st) <> 0.
Proof.
  unfold is_wired. rewrite negb_true_iff. apply Nat.eqb_neq.
Qed.

Lemma signature_area_iff (st : state) :
  signature_area st = true <->
  mounted st = true /\ (status st = ready \/ status st = sending).
Proof.
  unfold signature_area. rewrite andb_true_iff.
  destruct (status st); intuition congruence.
Qed.

Ltac client_state st :=
  cbn [step]; rewrite ?emit_setStatus;
  unfold sendSignature, signature_area, button_disabled, setStatus,
         setSignatureDataUrl, set_connRef, set_timers, set_unmounted;
  destruct st as [sts url cr m w t];
  cbn [status signatureDataUrl connRef mounted wired timers];
  repeat match goal with
         | |- context [if ?b then _ else _] => destruct b eqn:?
         | |- context [match ?x with _ => _ end] => destruct x eqn:?
         end;
  cbn [fst snd status signatureDataUrl connRef mounted wired timers].

(** From [connecting], only the [open] of a wired connection gives [ready]. *)
Lemma step_ready_iff (target : jsstring) (st : state) (e : event) :
  mounted st = true -> status st = connecting ->
  (status (fst (step target st e)) = ready <->
   exists c, e = ConnOpen c /\ is_wired c st = true).
Proof.
  intros Hm Hs. split.
  - intros H. destruct e as [c|c|c err|c|err|v| | |].
    2: { exists c. split; [reflexivity|]. apply wired_has_listener.
         intros Hz. cbn [step] in H. rewrite Hz in H. cbn in H. congruence. }
    all: exfalso; revert H Hm Hs; client_state st; congruence.
  - intros (c & -> & Hw). apply wired_has_listener in Hw.
    cbn [step]. rewrite emit_setStatus.
    destruct (listeners c (wired st)); [congruence|].
    unfold setStatus. now rewrite Hm.
Qed.

(** While [sending], only the timer callback gives [sent]. *)
Lemma step_sent_inv (target : jsstring) (st : state) (e : event) :
  status st = sending -> status (fst (step target st e)) = sent -> e = Timeout.
Proof.
  intros Hs H. destruct e as [c|c|c err|c|err|v| | |]; trivial;
    exfalso; revert H Hs; client_state st; congruence.
Qed.

(** C8, as amended: a mounted client in [connecting] becomes [ready] on an
    event exactly when that event is the [open] of its outbound connection.
    The signature area (drawing pad and submit button) is not rendered in
    [connecting]; it is rendered exactly in [ready] and in [sending], and
    where it is rendered the pad's drawings reach the state; elsewhere they
    do not. *)
Theorem ready_on_open_and_signature_area
  (target : jsstring) (st : state) (e : event) :
  mounted st = true -> status st = connecting ->
  (status (fst (step target st e)) = ready <->
   exists c, e = ConnOpen c /\ is_wired c st = true) /\
  signature_area st = false /\
  (forall st', signature_area st' = true <->
               mounted st' = true /\
               (status st' = ready \/ status st' = sending)) /\
  (forall st' v, signature_area st' = true ->
                 signatureDataUrl (fst (step target st' (SignatureChange v))) = v) /\
  (forall st' v, signature_area st' = false ->
                 step target st' (SignatureChange v) = (st', [])).
Proof.
  intros Hm Hs. split; [now apply step_ready_iff|].
  split; [unfold signature_area; now rewrite Hs, andb_false_r|].
  split; [exact signature_area_iff|]. split.
  - intros st' v Ha. cbn [step]. rewrite Ha.
    apply signature_area_iff in Ha as [Hm' _].
    unfold setSignatureDataUrl. now rewrite Hm'.
  - intros st' v Ha. cbn [step]. now rewrite Ha.
Qed.

Lemma ready_on_open_and_signature_area_witness :
  mounted Session.client_connecting = true /\
  status Session.client_connecting = connecting /\
  (status (fst (step Session.ABC123 Session.client_connecting (ConnOpen 0)))
     = ready <->
   exists c, ConnOpen 0 = ConnOpen c /\
             is_wired c Session.client_connecting = true) /\
  status (fst (step Session.ABC123 Session.client_connecting (ConnOpen 0)))
    = ready.
Proof.
  split; [reflexivity|]. split; [reflexivity|].
  pose proof (ready_on_open_and_signature_area Session.ABC123
                Session.client_connecting (ConnOpen 0) eq_refl eq_refl)
    as (H & _).
  split; [exact H|reflexivity].
Defined.

(** C8 as stated fails: in [sending] the signature area is still rendered,
    and a drawing event of the pad still changes the captured signature. *)
Lemma signature_area_live_while_sending :
  status Session.client_sending = sending /\
  signature_area Session.client_sending = true /\
  signatureDataUrl Session.client_sending = Some Session.image_AAA /\
  signatureDataUrl
    (fst (step Session.ABC123 Session.client_sending (SignatureChange None)))
    = None.
Proof. repeat split; vm_compute; reflexivity. Qed.

(** C9: with a non-empty captured drawing and a connection, [sendSignature]
    performs one [send] of the payload and arms one 300 ms timer, leaving
    the client in [sending]; a further click there does nothing; the timer
    callback alone, with no event from the host, gives [sent], and nothing
    else does. Without a drawing ([null] or empty) [sendSignature] does
    nothing. *)
Theorem sendSignature_sends_once
  (target : jsstring) (st : state) (c : conn) (img : jsstring) :
  mounted st = true -> signatureDataUrl st = Some img -> img <> [] ->
  connRef st = Some c ->
  snd (sendSignature st) = [send c (payload img); setTimeout 300] /\
  send_calls (snd (sendSignature st)) = 1 /\
  status (fst (sendSignature st)) = sending /\
  step target (fst (sendSignature st)) ClickSend = (fst (sendSignature st), []) /\
  status (fst (step target (fst (sendSignature st)) Timeout)) = sent /\
  snd (step target (fst (sendSignature st)) Timeout) = [] /\
  (forall e, status (fst (step target (fst (sendSignature st)) e)) = sent ->
             e = Timeout) /\
  (forall st0, signatureDataUrl st0 = None \/ signatureDataUrl st0 = Some [] ->
               sendSignature st0 = (st0, [])).
Proof.
  intros Hm Hu Hne Hc.
  destruct img as [|u rl]; [congruence|].
  assert (Hsend : sendSignature st =
                  (set_timers (S (timers st)) (setStatus sending st),
                   [send c (payload (u :: rl)); setTimeout 300])).
  { unfold sendSignature. now rewrite Hu, Hc. }
  rewrite Hsend. cbn [fst snd].
  assert (Hs : status (set_timers (S (timers st)) (setStatus sending st)) = sending).
  { unfold set_timers, setStatus. now rewrite Hm. }
  repeat split; trivial.
  - cbn [step]. unfold button_disabled. rewrite Hs.
    unfold set_timers, setStatus. rewrite Hm.
    cbn [signatureDataUrl]. rewrite Hu. now rewrite andb_false_r.
  - cbn [step set_timers timers]. unfold setStatus, set_timers.
    rewrite Hm. reflexivity.
  - intros e. now apply step_sent_inv.
  - intros st0 [H|H]; unfold sendSignature; now rewrite H.
Qed.

Lemma sendSignature_sends_once_witness :
  mounted Session.client_drawn = true /\
  signatureDataUrl Session.client_drawn = Some Session.image_AAA /\
  Session.image_AAA <> [] /\
  connRef Session.client_drawn = Some 0 /\
  snd (sendSignature Session.client_drawn)
    = [send 0 (payload Session.image_AAA); setTimeout 300] /\
  status (fst (sendSignature Session.client_drawn)) = sending.
Proof.
  split; [reflexivity|]. split; [reflexivity|]. split; [discriminate|].
  split; [reflexivity|].
  assert (Hne : Session.image_AAA <> []) by discriminate.
  pose proof (sendSignature_sends_once Session.ABC123 Session.client_drawn 0
                Session.image_AAA eq_refl eq_refl Hne eq_refl)
    as (H1 & _ & H2 & _).
  split; assumption.
Defined.

End ClientClaims.

(** * Both sides together *)

Module SessionClaims.

(** C3, as amended: the happy path, with the payload the code puts on the
    wire, [{ type: 'signature', dataUrl: <image> }]. Once its endpoint opens
    with id ["ABC123"] the host shows the QR code of [.../#/sign/ABC123]; the
    client given that id becomes [ready] when its connection opens; its send
    of the drawn image puts that payload on the connection; the host, on the
    data event carrying it, calls [onSignature] with exactly that string and
    becomes [received]. *)
Theorem happy_path (origin pathname : jsstring) :
  QRSignatureModal.status Session.host_waiting = QRSignatureModal.waiting /\
  QRSignatureModal.qr_code
    (QRSignatureModal.render origin pathname Session.host_waiting)
    = Some (origin ++ pathname ++ js "#/sign/ABC123") /\
  MobileSignPage.run Session.ABC123 MobileSignPage.init
    [MobileSignPage.PeerOpen 0; MobileSignPage.ConnOpen 0]
    = (Session.client_ready, [MobileSignPage.connect Session.ABC123 0]) /\
  MobileSignPage.status Session.client_ready = MobileSignPage.ready /\
  MobileSignPage.step Session.ABC123 Session.client_drawn MobileSignPage.ClickSend
    = (Session.client_sending,
       [MobileSignPage.send 0
          (JObj [(js "type", JStr (js "signature"));
                 (js "dataUrl", JStr Session.image_AAA)]);
        MobileSignPage.setTimeout 300]) /\
  Session.delivered
    (snd (MobileSignPage.step Session.ABC123 Session.client_drawn
            MobileSignPage.ClickSend))
    = [QRSignatureModal.ConnData 0 (MobileSignPage.payload Session.image_AAA)] /\
  snd (QRSignatureModal.run Session.host_connected
         (Session.delivered
            (snd (MobileSignPage.step Session.ABC123 Session.client_drawn
                    MobileSignPage.ClickSend))))
    = [QRSignatureModal.onSignature (JStr Session.image_AAA);
       QRSignatureModal.setTimeout 500] /\
  QRSignatureModal.status
    (fst (QRSignatureModal.run Session.host_connected
            (Session.delivered
               (snd (MobileSignPage.step Session.ABC123 Session.client_drawn
                       MobileSignPage.ClickSend)))))
    = QRSignatureModal.received.
Proof.
  split; [reflexivity|]. split; [reflexivity|].
  repeat split; vm_compute; reflexivity.
Qed.

(** C3 as stated fails on the shape of the wire payload: what the client
    sends is not [{ kind: "signature", image }], and a data event carrying
    that object leaves the host in [connected] without calling
    [onSignature]. *)
Lemma spec_payload_is_not_the_wire_payload :
  MobileSignPage.payload Session.image_AAA
    <> Session.spec_payload Session.image_AAA /\
  QRSignatureModal.status Session.host_connected = QRSignatureModal.connected /\
  QRSignatureModal.step Session.host_connected
    (QRSignatureModal.ConnData 0 (Session.spec_payload Session.image_AAA))
    = (Session.host_connected, []).
Proof.
  split; [vm_compute; discriminate|].
  split; vm_compute; reflexivity.
Qed.

End SessionClaims.

(** * Further properties of the router, the host and the client *)

Module RouterExtras.



End RouterExtras.

Module HostExtras.

Import QRSignatureModal HostFacts Traces.

Lemma step_id_follows_status (st : state) (e : event) :
  id_follows_status st -> id_follows_status (fst (step st e)).
Proof.
  unfold id_follows_status. revert e.
  intros e; step_cases st e; cbn; intros [H1 H2]; split; intros H;
    try discriminate; auto.
Qed.

Lemma run_id_follows_status (st : state) (evs : list event) :
  id_follows_status st -> id_follows_status (fst (run st evs)).
Proof.
  revert st. induction evs as [|e evs IH]; intros st H; [exact H|].
  rewrite run_cons. cbn [fst]. apply IH. now apply step_id_follows_status.
Qed.

(** X2: over any sequence of events from mount, the host shows no QR code
    while its status is [connecting], where no id is known yet; and whenever
    its status is [waiting] an id is known and the QR code shown is the
    signing URL of that id. *)
Theorem qr_code_follows_status
  (origin pathname : jsstring) (evs : list event) :
  (status (fst (run init evs)) = connecting ->
   peerId (fst (run init evs)) = None /\
   qr_code (render origin pathname (fst (run init evs))) = None) /\
  (status (fst (run init evs)) = waiting ->
   exists id, peerId (fst (run init evs)) = Some id /\
              qr_code (render origin pathname (fst (run init evs)))
                = signingUrl origin pathname (Some id)).
Proof.
  assert (Hinv : id_follows_status (fst (run init evs))).
  { apply run_id_follows_status. split; [reflexivity|discriminate]. }
  destruct Hinv as [H1 H2]. split; intros Hs.
  - split; [now apply H1|]. unfold render. cbn [qr_code]. now rewrite Hs.
  - specialize (H2 Hs).
    destruct (peerId (fst (run init evs))) as [id|] eqn:Hp; [|congruence].
    exists id. split; [reflexivity|].
    unfold render. cbn [qr_code]. now rewrite Hs, Hp.
Qed.

(** X3: the host's status is [received] only after [onSignature] has been
    called: a session whose status is [received] has handed at least one
    image to the callback. *)
Theorem received_only_after_callback (evs : list event) :
  status (fst (run init evs)) = received ->
  1 <= onSignature_calls (snd (run init evs)).
Proof.
  assert (H : forall l st,
             status st <> received -> status (fst (run st l)) = received ->
             1 <= onSignature_calls (snd (run st l))).
  { induction l as [|e l IH]; intros st Hs H; [now cbn in H|].
    rewrite run_cons in *. cbn [fst snd] in *. rewrite onSignature_calls_app.
    destruct (status (fst (step st e))) eqn:Hs1.
    4: { assert (Hr : status (fst (step st e)) = received) by exact Hs1.
         destruct (HostClaims.step_received_inv st e Hs Hr)
           as (c & d & -> & Ha & Hw).
         rewrite step_onSignature_calls, Ha.
         apply is_wired_listeners in Hw. lia. }
    all: assert (Hn : status (fst (step st e)) <> received) by congruence;
         specialize (IH _ Hn H); lia. }
  apply H. discriminate.
Qed.

Lemma received_only_after_callback_witness :
  status (fst (run init Session.completion)) = received /\
  1 <= onSignature_calls (snd (run init Session.completion)).
Proof.
  split; [reflexivity|].
  apply (received_only_after_callback Session.completion). reflexivity.
Defined.

End HostExtras.

Module ClientExtras.

Import MobileSignPage ClientClaims Traces.

Lemma client_run_cons (t : jsstring) (st : state) (e : event) (evs : list event) :
  run t st (e :: evs) =
  (fst (run t (fst (step t st e)) evs),
   snd (step t st e) ++ snd (run t (fst (step t st e)) evs)).
Proof.
  simpl. destruct (step t st e) as [st1 out1]. simpl.
  destruct (run t st1 evs) as [st2 out2]. reflexivity.
Qed.

Lemma send_calls_app (a b : list effect) :
  send_calls (a ++ b) = send_calls a + send_calls b.
Proof. unfold send_calls. now rewrite filter_app, length_app. Qed.


(** Listeners of [open] and [error] send nothing and destroy nothing. *)
Lemma In_concat_repeat (f : effect) (out : list effect) (n : nat) :
  In f (concat (repeat out n)) -> In f out.
Proof.
  induction n as [|k IH]; cbn [repeat concat]; [contradiction|].
  rewrite in_app_iff. tauto.
Qed.

Lemma filter_concat_repeat (p : effect -> bool) (out : list effect) (n : nat) :
  filter p out = [] -> filter p (concat (repeat out n)) = [].
Proof.
  intros H. induction n as [|k IH]; [reflexivity|].
  cbn [repeat concat]. now rewrite filter_app, H, IH.
Qed.

(** The host's check on what [sendSignature] builds. *)
Lemma payload_accepted (s : jsstring) :
  s <> [] ->
  QRSignatureModal.accepts (payload s) = true /\
  QRSignatureModal.dataUrl_of (payload s) = JStr s.
Proof.
  intros Hs. destruct s as [|u rl]; [congruence|].
  split; reflexivity.
Qed.

(** X5: whatever the client puts on the wire passes the host's check: a
    [send] goes out on [connRef.current], and its payload is the object
    built from the captured, non-empty drawing, which the host's condition
    accepts and from which the host reads back exactly that drawing. *)
Theorem every_send_is_accepted_by_host
  (t : jsstring) (st : state) (e : event) (c : conn) (p : jsval) :
  In (send c p) (snd (step t st e)) ->
  connRef st = Some c /\
  exists s, s <> [] /\ signatureDataUrl st = Some s /\ p = payload s /\
            QRSignatureModal.accepts p = true /\
            QRSignatureModal.dataUrl_of p = JStr s.
Proof.
  intros Hin.
  destruct e as [c0|c0|c0 err|c0|err|v| | |]; cbn [step] in Hin.
  - cbn in Hin. destruct Hin as [H|[]]. discriminate.
  - rewrite emit_setStatus in Hin. cbn [snd] in Hin.
    apply In_concat_repeat in Hin. contradiction.
  - rewrite emit_setStatus in Hin. cbn [snd] in Hin.
    apply In_concat_repeat in Hin. destruct Hin as [H|[]]. discriminate.
  - contradiction.
  - destruct Hin as [H|[]]. discriminate.
  - destruct (signature_area st); contradiction.
  - destruct (signature_area st && negb (button_disabled st));
      [|contradiction].
    unfold sendSignature in Hin.
    destruct (signatureDataUrl st) as [[|u rl]|] eqn:Hu; try contradiction.
    destruct (connRef st) as [c1|] eqn:Hc; [|contradiction].
    cbn [snd] in Hin. destruct Hin as [H|[H|[]]]; [|discriminate].
    injection H as <- <-. split; [reflexivity|].
    exists (u :: rl). repeat split. discriminate.
  - destruct (timers st); contradiction.
  - destruct (mounted st); [|contradiction].
    destruct Hin as [H|[]]. discriminate.
Qed.

Lemma every_send_is_accepted_by_host_witness :
  In (send 0 (payload Session.image_AAA))
     (snd (step Session.ABC123 Session.client_drawn ClickSend)) /\
  connRef Session.client_drawn = Some 0 /\
  QRSignatureModal.accepts (payload Session.image_AAA) = true.
Proof.
  assert (Hin : In (send 0 (payload Session.image_AAA))
                   (snd (step Session.ABC123 Session.client_drawn ClickSend)))
    by (left; reflexivity).
  split; [exact Hin|].
  destruct (every_send_is_accepted_by_host Session.ABC123 Session.client_drawn
              ClickSend 0 (payload Session.image_AAA) Hin)
    as (Hc & s & _ & _ & _ & Ha & _).
  split; assumption.
Defined.

Lemma send_calls_concat_repeat (out : list effect) (n : nat) :
  filter is_send out = [] -> send_calls (concat (repeat out n)) = 0.
Proof.
  intros H. unfold send_calls. now rewrite filter_concat_repeat.
Qed.

Lemma step_send_bound (tgt : jsstring) (st : state) (e : event) :
  is_conn_open e = false ->
  send_calls (snd (step tgt st e)) <= 1 /\
  (status st <> ready ->
   send_calls (snd (step tgt st e)) = 0 /\ status (fst (step tgt st e)) <> ready) /\
  (send_calls (snd (step tgt st e)) = 1 -> status (fst (step tgt st e)) <> ready).
Proof.
  intros He. destruct e as [c|c|c err|c|err|v| | |]; try discriminate He;
    clear He; client_state st;
    rewrite ?send_calls_concat_repeat by reflexivity;
    cbn; repeat split; intros; try discriminate; try lia; try congruence;
    destruct sts; cbn in *; congruence.
Qed.

(** X6: the client sends only after an [open] of its connection, and once
    per such opening: over any sequence of events without a connection
    [open], a client that is not [ready] sends nothing, and a client that is
    [ready] sends at most once. *)
Theorem no_second_send_without_open
  (t : jsstring) (st : state) (evs : list event) :
  forallb (fun e => negb (is_conn_open e)) evs = true ->
  (status st <> ready -> send_calls (snd (run t st evs)) = 0) /\
  send_calls (snd (run t st evs)) <= 1.
Proof.
  revert st. induction evs as [|e evs IH]; intros st H.
  - split; [reflexivity|cbn; lia].
  - cbn [forallb] in H. apply andb_true_iff in H as [He H].
    apply negb_true_iff in He.
    destruct (step_send_bound t st e He) as (Hle & Hnr & Hone).
    destruct (IH (fst (step t st e)) H) as [IH0 IH1].
    rewrite client_run_cons. cbn [snd]. rewrite send_calls_app. split.
    + intros Hs. destruct (Hnr Hs) as [H0 Hs']. rewrite H0, (IH0 Hs').
      reflexivity.
    + destruct (send_calls (snd (step t st e))) as [|[|k]] eqn:Hk.
      * exact IH1.
      * rewrite (IH0 (Hone eq_refl)). lia.
      * lia.
Qed.

Lemma no_second_send_without_open_witness :
  forallb (fun e => negb (is_conn_open e))
    [SignatureChange (Some Session.image_AAA); ClickSend; ClickSend;
     Timeout; ClickSend] = true /\
  send_calls
    (snd (run Session.ABC123 Session.client_ready
            [SignatureChange (Some Session.image_AAA); ClickSend; ClickSend;
             Timeout; ClickSend])) <= 1.
Proof.
  split; [reflexivity|].
  apply (no_second_send_without_open Session.ABC123 Session.client_ready
           [SignatureChange (Some Session.image_AAA); ClickSend; ClickSend;
            Timeout; ClickSend]).
  reflexivity.
Defined.



End ClientExtras.

Module SessionExtras.

(** X4: end to end, for every id, connection and non-empty drawing: the
    client, once its connection is open, sends the drawing when the button is
    pressed; the host, to which that connection was announced, calls
    [onSignature] once with exactly that drawing on the arrival of what was
    sent, and shows [received]. *)
Theorem drawing_reaches_callback
  (target id : jsstring) (c : nat) (s : jsstring) :
  s <> [] ->
  snd (MobileSignPage.run target MobileSignPage.init (Traces.client_script c s))
    = [MobileSignPage.connect target c;
       MobileSignPage.send c (MobileSignPage.payload s);
       MobileSignPage.setTimeout 300] /\
  MobileSignPage.status
    (fst (MobileSignPage.run target MobileSignPage.init
            (Traces.client_script c s))) = MobileSignPage.sending /\
  snd (QRSignatureModal.run QRSignatureModal.init
         (Traces.host_script id c ++
          Session.delivered
            (snd (MobileSignPage.run target MobileSignPage.init
                    (Traces.client_script c s)))))
    = [QRSignatureModal.onSignature (JStr s); QRSignatureModal.setTimeout 500] /\
  QRSignatureModal.status
    (fst (QRSignatureModal.run QRSignatureModal.init
            (Traces.host_script id c ++
             Session.delivered
               (snd (MobileSignPage.run target MobileSignPage.init
                       (Traces.client_script c s))))))
    = QRSignatureModal.received.
Proof.
  intros Hs. destruct s as [|u rl]; [congruence|].
  assert (Hcl : MobileSignPage.run target MobileSignPage.init
                  (Traces.client_script c (u :: rl))
                = (MobileSignPage.mk_state MobileSignPage.sending
                     (Some (u :: rl)) (Some c) true [c] 1,
                   [MobileSignPage.connect target c;
                    MobileSignPage.send c (MobileSignPage.payload (u :: rl));
                    MobileSignPage.setTimeout 300])).
  { unfold Traces.client_script. cbn -[listeners MobileSignPage.payload].
    unfold listeners. cbn [count_occ].
    destruct (Nat.eq_dec c c); [reflexivity|congruence]. }
  rewrite Hcl. cbn [fst snd MobileSignPage.status].
  unfold Traces.host_script.
  repeat split; cbn -[listeners MobileSignPage.payload];
    unfold listeners; cbn [count_occ];
    destruct (Nat.eq_dec c c); try congruence; reflexivity.
Qed.

Lemma drawing_reaches_callback_witness :
  Session.image_AAA <> [] /\
  snd (QRSignatureModal.run QRSignatureModal.init
         (Traces.host_script Session.ABC123 7 ++
          Session.delivered
            (snd (MobileSignPage.run Session.ABC123 MobileSignPage.init
                    (Traces.client_script 7 Session.image_AAA)))))
    = [QRSignatureModal.onSignature (JStr Session.image_AAA);
       QRSignatureModal.setTimeout 500].
Proof.
  assert (Hne : Session.image_AAA <> []) by discriminate.
  split; [exact Hne|].
  exact (proj1 (proj2 (proj2
           (drawing_reaches_callback Session.ABC123 Session.ABC123 7
              Session.image_AAA Hne)))).
Defined.

End SessionExtras.

(** * Properties of the form's validation and download handler *)

Module FormExtras.

Import ParentalAbsenceForm.

Lemma nonempty_false (s : jsstring) : nonempty s = false <-> s = [].
Proof. destruct s; split; intros H; try reflexivity; discriminate. Qed.

(** X8: [scrollToFirstError] only ever points at a field of an incomplete
    form, but it does not cover every incomplete form. With all four refs
    attached, an incomplete form gets no scroll and no focus exactly when
    name and both dates are filled in and the fault is a custom signature
    whose name is blank after trimming, or a drawn signature that has not
    been captured. *)
Theorem scroll_misses_signature_details (f : form) (r : refs) :
  all_attached r = true ->
  (scrollToFirstError f r <> [] -> isFormComplete f = false) /\
  (isFormComplete f = false /\ scrollToFirstError f r = [] <->
   childName f <> [] /\ fromDate f <> [] /\ toDate f <> [] /\
   (selectedSignature f = custom /\ trim (customSignatureName f) = [] \/
    selectedSignature f = drawn /\ truthy (drawnSignature f) = false)).
Proof.
  intros Hr. unfold all_attached in Hr.
  repeat (apply andb_true_iff in Hr as [Hr ?]).
  unfold scrollToFirstError, isFormComplete.
  rewrite Hr, H, H0, H1.
  destruct (childName f) as [|c cn]; cbn [nonempty negb andb].
  { split; [reflexivity|]. split; [intros [_ ?]; discriminate|].
    intros (Hc & _). congruence. }
  destruct (fromDate f) as [|d fd]; cbn [nonempty negb andb].
  { split; [reflexivity|]. split; [intros [_ ?]; discriminate|].
    intros (_ & Hc & _). congruence. }
  destruct (toDate f) as [|e td]; cbn [nonempty negb andb].
  { split; [reflexivity|]. split; [intros [_ ?]; discriminate|].
    intros (_ & _ & Hc & _). congruence. }
  destruct (selectedSignature f) as [|idx| |]; cbn [andb].
  - split; [reflexivity|]. split; [intros [_ ?]; discriminate|].
    intros (_ & _ & _ & [[? _]|[? _]]); discriminate.
  - split; [congruence|]. split; [intros [? _]; discriminate|].
    intros (_ & _ & _ & [[? _]|[? _]]); discriminate.
  - rewrite andb_true_r. split; [congruence|]. split.
    + intros [Hn _]. apply nonempty_false in Hn.
      repeat split; try discriminate. now left.
    + intros (_ & _ & _ & [[_ Ht]|[? _]]); [|discriminate].
      split; [now apply nonempty_false|reflexivity].
  - split; [congruence|]. split.
    + intros [Hn _]. repeat split; try discriminate. now right.
    + intros (_ & _ & _ & [[? _]|[_ Ht]]); [discriminate|].
      split; [exact Ht|reflexivity].
Qed.

Lemma scroll_misses_signature_details_witness :
  all_attached (mk_refs true true true true) = true /\
  isFormComplete
    (mk_form (js "Anna") Session.example_date Session.example_date
       custom (js "   ") JNull) = false /\
  scrollToFirstError
    (mk_form (js "Anna") Session.example_date Session.example_date
       custom (js "   ") JNull) (mk_refs true true true true) = [].
Proof.
  split; [reflexivity|].
  apply (scroll_misses_signature_details
           (mk_form (js "Anna") Session.example_date Session.example_date
              custom (js "   ") JNull) (mk_refs true true true true) eq_refl).
  repeat split; try discriminate. left. split; reflexivity.
Defined.


End FormExtras.

(** * Properties of the trimming of a drawn signature *)

Module ImageExtras.

Import SignatureImage.

Lemma fold_left_flat_map {A B C : Type} (f : A -> C -> A) (g : B -> list C)
  (l : list B) (a : A) :
  fold_left f (flat_map g l) a
  = fold_left (fun acc b => fold_left f (g b) acc) l a.
Proof.
  revert a. induction l as [|b l IH]; intros a; [reflexivity|].
  cbn [flat_map]. rewrite fold_left_app. apply IH.
Qed.

Lemma fold_left_map {A B C : Type} (f : A -> C -> A) (g : B -> C)
  (l : list B) (a : A) :
  fold_left f (map g l) a = fold_left (fun acc b => f acc (g b)) l a.
Proof.
  revert a. induction l as [|b l IH]; intros a; [reflexivity|apply IH].
Qed.

Lemma fold_left_same {A B : Type} (f g : A -> B -> A) (l : list B) (a : A) :
  (forall x y, f x y = g x y) -> fold_left f l a = fold_left g l a.
Proof.
  intros H. revert a. induction l as [|b l IH]; intros a; [reflexivity|].
  cbn [fold_left]. now rewrite H, IH.
Qed.

(** The two loops are one pass over [pixels]. *)
Lemma scan_pixels (iData : list Z) (width height : nat) :
  scan iData width height
  = fold_left (visit_pixel iData width) (pixels width height)
      (mk_box (Z.of_nat width) 0 (Z.of_nat height) 0).
Proof.
  unfold scan, pixels. rewrite fold_left_flat_map.
  apply fold_left_same. intros b py. unfold scan_row.
  now rewrite fold_left_map.
Qed.

Lemma in_pixels (width height px py : nat) :
  In (px, py) (pixels width height) <-> px < width /\ py < height.
Proof.
  unfold pixels. rewrite in_flat_map. split.
  - intros (y & Hy & Hin). apply in_map_iff in Hin as (x & Heq & Hx).
    injection Heq as <- <-. apply in_seq in Hy, Hx. lia.
  - intros [Hx Hy]. exists py. split; [apply in_seq; lia|].
    apply in_map_iff. exists px. split; [reflexivity|apply in_seq; lia].
Qed.

(** What one pass computes: the box only grows; it contains every inked
    pixel visited; and each of its sides is where it started or at an inked
    pixel that was visited. *)
Lemma pass_spec (iData : list Z) (width : nat) (l : list (nat * nat)) (b : box) :
  let r := fold_left (visit_pixel iData width) l b in
  (minX r <= minX b /\ maxX b <= maxX r /\
   minY r <= minY b /\ maxY b <= maxY r)%Z /\
  (forall px py, In (px, py) l -> opaque iData width px py = true ->
     (minX r <= Z.of_nat px <= maxX r /\ minY r <= Z.of_nat py <= maxY r)%Z) /\
  (minX r = minX b \/
   exists px py, In (px, py) l /\ opaque iData width px py = true /\
                 minX r = Z.of_nat px) /\
  (maxX r = maxX b \/
   exists px py, In (px, py) l /\ opaque iData width px py = true /\
                 maxX r = Z.of_nat px) /\
  (minY r = minY b \/
   exists px py, In (px, py) l /\ opaque iData width px py = true /\
                 minY r = Z.of_nat py) /\
  (maxY r = maxY b \/
   exists px py, In (px, py) l /\ opaque iData width px py = true /\
                 maxY r = Z.of_nat py).
Proof.
  revert b. induction l as [|[qx qy] l IH]; intros b; cbn zeta.
  - cbn [fold_left]. split; [lia|]. split; [intros ? ? []|].
    repeat split; now left.
  - cbn [fold_left].
    specialize (IH (visit_pixel iData width b (qx, qy))). cbn zeta in IH.
    set (r := fold_left (visit_pixel iData width) l
                (visit_pixel iData width b (qx, qy))) in *.
    destruct IH as (Hmono & Hin & Ha & Hb & Hc & Hd).
    unfold visit_pixel, visit in Hmono, Ha, Hb, Hc, Hd.
    cbn [fst snd] in Hmono, Ha, Hb, Hc, Hd.
    destruct (opaque iData width qx qy) eqn:Hq;
      cbn [minX maxX minY maxY] in Hmono, Ha, Hb, Hc, Hd.
    + split; [lia|]. split.
      { intros px py [Heq|Hl] Ho.
        - injection Heq as <- <-. lia.
        - now apply Hin. }
      repeat split.
      * destruct Ha as [Ha|(px & py & Hl & Ho & Hv)].
        -- destruct (Z.min_spec (minX b) (Z.of_nat qx)) as [[_ Hm]|[_ Hm]].
           ++ left. lia.
           ++ right. exists qx, qy. repeat split; [now left|assumption|lia].
        -- right. exists px, py. repeat split; [now right|assumption|assumption].
      * destruct Hb as [Hb|(px & py & Hl & Ho & Hv)].
        -- destruct (Z.max_spec (maxX b) (Z.of_nat qx)) as [[_ Hm]|[_ Hm]].
           ++ right. exists qx, qy. repeat split; [now left|assumption|lia].
           ++ left. lia.
        -- right. exists px, py. repeat split; [now right|assumption|assumption].
      * destruct Hc as [Hc|(px & py & Hl & Ho & Hv)].
        -- destruct (Z.min_spec (minY b) (Z.of_nat qy)) as [[_ Hm]|[_ Hm]].
           ++ left. lia.
           ++ right. exists qx, qy. repeat split; [now left|assumption|lia].
        -- right. exists px, py. repeat split; [now right|assumption|assumption].
      * destruct Hd as [Hd|(px & py & Hl & Ho & Hv)].
        -- destruct (Z.max_spec (maxY b) (Z.of_nat qy)) as [[_ Hm]|[_ Hm]].
           ++ right. exists qx, qy. repeat split; [now left|assumption|lia].
           ++ left. lia.
        -- right. exists px, py. repeat split; [now right|assumption|assumption].
    + split; [lia|]. split.
      { intros px py [Heq|Hl] Ho.
        - injection Heq as <- <-. congruence.
        - now apply Hin. }
      repeat split.
      * destruct Ha as [Ha|(px & py & Hl & Ho & Hv)]; [now left|].
        right. exists px, py. repeat split; [now right|assumption|assumption].
      * destruct Hb as [Hb|(px & py & Hl & Ho & Hv)]; [now left|].
        right. exists px, py. repeat split; [now right|assumption|assumption].
      * destruct Hc as [Hc|(px & py & Hl & Ho & Hv)]; [now left|].
        right. exists px, py. repeat split; [now right|assumption|assumption].
      * destruct Hd as [Hd|(px & py & Hl & Ho & Hv)]; [now left|].
        right. exists px, py. repeat split; [now right|assumption|assumption].
Qed.

(** The box of the whole image: sides within the image or at their
    initial values, and around every inked pixel. *)
Lemma scan_spec (iData : list Z) (width height : nat) :
  let r := scan iData width height in
  (forall px py, inked iData width height px py ->
     (minX r <= Z.of_nat px <= maxX r /\ minY r <= Z.of_nat py <= maxY r)%Z) /\
  (minX r = Z.of_nat width \/
   exists px py, inked iData width height px py /\ minX r = Z.of_nat px) /\
  (maxX r = 0%Z \/
   exists px py, inked iData width height px py /\ maxX r = Z.of_nat px) /\
  (minY r = Z.of_nat height \/
   exists px py, inked iData width height px py /\ minY r = Z.of_nat py) /\
  (maxY r = 0%Z \/
   exists px py, inked iData width height px py /\ maxY r = Z.of_nat py).
Proof.
  cbn zeta. rewrite scan_pixels.
  pose proof (pass_spec iData width (pixels width height)
                (mk_box (Z.of_nat width) 0 (Z.of_nat height) 0)) as H.
  cbn zeta in H. cbn [minX maxX minY maxY] in H.
  destruct H as (_ & Hin & Ha & Hb & Hc & Hd).
  assert (Hink : forall px py, In (px, py) (pixels width height) ->
                 opaque iData width px py = true ->
                 inked iData width height px py).
  { intros px py Hl Ho. apply in_pixels in Hl. unfold inked. tauto. }
  split.
  { intros px py (Hx & Hy & Ho). apply Hin; [|exact Ho].
    apply in_pixels. now split. }
  repeat split.
  - destruct Ha as [Ha|(px & py & Hl & Ho & Hv)]; [now left|].
    right. exists px, py. split; [now apply Hink|exact Hv].
  - destruct Hb as [Hb|(px & py & Hl & Ho & Hv)]; [now left|].
    right. exists px, py. split; [now apply Hink|exact Hv].
  - destruct Hc as [Hc|(px & py & Hl & Ho & Hv)]; [now left|].
    right. exists px, py. split; [now apply Hink|exact Hv].
  - destruct Hd as [Hd|(px & py & Hl & Ho & Hv)]; [now left|].
    right. exists px, py. split; [now apply Hink|exact Hv].
Qed.

(** X10: when a drawn signature is trimmed, the rectangle copied out of the
    image is not empty, lies within the image, and contains every pixel
    whose alpha exceeds 10. *)
Theorem crop_contains_ink
  (iData : list Z) (width height : nat) (sx sy sw sh : Z) :
  trim_drawn iData width height = cropped sx sy sw sh ->
  (0 <= sx /\ 0 <= sy /\ 0 < sw /\ 0 < sh /\
   sx + sw <= Z.of_nat width /\ sy + sh <= Z.of_nat height)%Z /\
  (forall px py, inked iData width height px py ->
     (sx <= Z.of_nat px < sx + sw /\ sy <= Z.of_nat py < sy + sh)%Z).
Proof.
  unfold trim_drawn, pad. cbn zeta.
  pose proof (scan_spec iData width height) as H. cbn zeta in H.
  destruct H as (Hin & Ha & Hb & Hc & Hd).
  set (r := scan iData width height) in *.
  destruct ((maxX r <=? minX r) || (maxY r <=? minY r))%Z eqn:Hdeg;
    [discriminate|].
  apply orb_false_iff in Hdeg as [Hx Hy].
  apply Z.leb_gt in Hx, Hy.
  intros Heq. injection Heq as <- <- <- <-.
  assert (Hminx : (0 <= minX r <= Z.of_nat width)%Z).
  { destruct Ha as [->|(px & py & (Hpx & _) & ->)]; lia. }
  assert (Hminy : (0 <= minY r <= Z.of_nat height)%Z).
  { destruct Hc as [->|(px & py & (_ & Hpy & _) & ->)]; lia. }
  assert (Hmaxx : (maxX r < Z.of_nat width)%Z).
  { destruct Hb as [Hb|(px & py & (Hpx & _) & ->)]; lia. }
  assert (Hmaxy : (maxY r < Z.of_nat height)%Z).
  { destruct Hd as [Hd|(px & py & (_ & Hpy & _) & ->)]; lia. }
  split; [lia|].
  intros px py Hink. pose proof (Hin px py Hink) as Hbox.
  destruct Hink as (Hpx & Hpy & _). lia.
Qed.

Lemma crop_contains_ink_witness :
  trim_drawn two_dots 3 3 = cropped 0 0 3 3 /\
  (forall px py, inked two_dots 3 3 px py ->
     (0 <= Z.of_nat px < 0 + 3 /\ 0 <= Z.of_nat py < 0 + 3)%Z).
Proof.
  split; [reflexivity|].
  apply (crop_contains_ink two_dots 3 3 0 0 3 3). reflexivity.
Defined.

(** X11: a drawn signature is returned untrimmed exactly when its inked
    pixels all lie in one column or all lie in one row (an image without
    ink included): a stroke one pixel wide or one pixel high is not
    trimmed. *)
Theorem single_line_is_not_trimmed (iData : list Z) (width height : nat) :
  trim_drawn iData width height = untrimmed <->
  (forall px py qx qy, inked iData width height px py ->
                       inked iData width height qx qy -> px = qx) \/
  (forall px py qx qy, inked iData width height px py ->
                       inked iData width height qx qy -> py = qy).
Proof.
  unfold trim_drawn. cbn zeta.
  pose proof (scan_spec iData width height) as H. cbn zeta in H.
  destruct H as (Hin & Ha & Hb & Hc & Hd).
  set (r := scan iData width height) in *.
  split.
  - destruct ((maxX r <=? minX r) || (maxY r <=? minY r))%Z eqn:Hdeg;
      [intros _|discriminate].
    apply orb_true_iff in Hdeg as [Hx|Hy].
    + apply Z.leb_le in Hx. left. intros px py qx qy Hp Hq.
      pose proof (Hin px py Hp). pose proof (Hin qx qy Hq). lia.
    + apply Z.leb_le in Hy. right. intros px py qx qy Hp Hq.
      pose proof (Hin px py Hp). pose proof (Hin qx qy Hq). lia.
  - intros Hline.
    assert (Hdeg : ((maxX r <=? minX r) || (maxY r <=? minY r))%Z = true).
    { apply orb_true_iff. destruct Hline as [Hcol|Hrow]; [left|right];
        apply Z.leb_le.
      - destruct Ha as [Ha|(px & py & Hp & Hv)];
          destruct Hb as [Hb|(qx & qy & Hq & Hw)].
        + lia.
        + pose proof (Hin qx qy Hq). destruct Hq as (Hq & _). lia.
        + lia.
        + pose proof (Hcol px py qx qy Hp Hq). lia.
      - destruct Hc as [Hc|(px & py & Hp & Hv)];
          destruct Hd as [Hd|(qx & qy & Hq & Hw)].
        + lia.
        + pose proof (Hin qx qy Hq). destruct Hq as (_ & Hq & _). lia.
        + lia.
        + pose proof (Hrow px py qx qy Hp Hq). lia. }
    now rewrite Hdeg.
Qed.

End ImageExtras.

(** * Properties of the year texts *)

Module DateExtras.

Import DateText.

Lemma years_ok_all (n : nat) (y0 y : Z) :
  years_ok n y0 = true -> (y0 <= y < y0 + Z.of_nat n)%Z ->
  year_texts_ok y = true.
Proof.
  revert y0. induction n as [|k IH]; intros y0 H Hr; [lia|].
  cbn [years_ok] in H. apply andb_true_iff in H as [H0 H].
  destruct (Z.eq_dec y y0) as [->|Hne]; [exact H0|].
  apply (IH (y0 + 1)%Z H). lia.
Qed.

Lemma four_digit_years_ok : years_ok (N.to_nat 9000) 1000 = true.
Proof. vm_compute. reflexivity. Qed.

(** X12: for a date whose year has four digits, [formatYear] is the last two
    digits of the year, so the preview, which prints [202] in front of it,
    shows five characters, while the PDF prints the four digits of
    [fullYear]: the two never agree. *)
Theorem preview_year_has_five_characters
  (getFullYear : jsstring -> option Z) (dateStr : jsstring) (y : Z) :
  dateStr <> [] -> getFullYear dateStr = Some y ->
  (1000 <= y <= 9999)%Z ->
  formatYear getFullYear dateStr
    = [(48 + Z.to_N ((y / 10) mod 10))%N; (48 + Z.to_N (y mod 10))%N] /\
  length (fullYear getFullYear dateStr) = 4 /\
  length (preview_year getFullYear dateStr) = 5 /\
  preview_year getFullYear dateStr <> fullYear getFullYear dateStr.
Proof.
  intros Hd Hy Hr.
  destruct dateStr as [|c rest]; [congruence|].
  assert (Hok : year_texts_ok y = true).
  { apply (years_ok_all (N.to_nat 9000) 1000 y four_digit_years_ok). lia. }
  unfold year_texts_ok in Hok. cbn zeta in Hok.
  apply andb_true_iff in Hok as [Hok H5].
  apply andb_true_iff in Hok as [Hf H4].
  apply Nat.eqb_eq in H4, H5.
  unfold str_eqb in Hf.
  destruct (jsstring_dec _ _) as [Hf'|]; [clear Hf|discriminate].
  unfold preview_year, formatYear, fullYear in *. rewrite Hy.
  cbn [js list_ascii_of_string map] in *.
  repeat split; try assumption.
  intros Heq. rewrite Heq in H5. congruence.
Qed.

Lemma preview_year_has_five_characters_witness :
  Session.example_date <> [] /\
  (1000 <= 2024 <= 9999)%Z /\
  preview_year (fun _ => Some 2024%Z) Session.example_date = js "20224" /\
  fullYear (fun _ => Some 2024%Z) Session.example_date = js "2024" /\
  preview_year (fun _ => Some 2024%Z) Session.example_date
    <> fullYear (fun _ => Some 2024%Z) Session.example_date.
Proof.
  assert (Hne : Session.example_date <> []) by discriminate.
  assert (Hr : (1000 <= 2024 <= 9999)%Z) by lia.
  split; [exact Hne|]. split; [exact Hr|].
  split; [reflexivity|]. split; [reflexivity|].
  apply (preview_year_has_five_characters (fun _ => Some 2024%Z)
           Session.example_date 2024 Hne eq_refl Hr).
Defined.

End DateExtras.

(** * Properties of the signature pad *)

Module PadExtras.

Import SignaturePad.

Section PadFacts.

Variables point canvas : Type.
Variable blank : canvas.
Variable stroke : canvas -> point -> point -> canvas.
Variable toDataURL : canvas -> jsstring.
Variable has_callback : bool.

Abbreviation pad_state := (state point canvas).
Abbreviation pad_step := (step blank stroke toDataURL has_callback).
Abbreviation pad_run := (run blank stroke toDataURL has_callback).
Abbreviation pad_init := (init (point := point) blank).

Lemma pad_run_cons (st : pad_state) (e : event point) (evs : list (event point)) :
  pad_run st (e :: evs) =
  (fst (pad_run (fst (pad_step st e)) evs),
   snd (pad_step st e) ++ snd (pad_run (fst (pad_step st e)) evs)).
Proof.
  simpl. destruct (pad_step st e) as [st1 out1]. simpl.
  destruct (pad_run st1 evs) as [st2 out2]. reflexivity.
Qed.

Ltac pad_cases st e :=
  destruct st as [dr hs lp ps bm]; destruct e as [p|p| | |];
  cbn [step isDrawing hasStrokes lastPoint points bitmap];
  unfold report;
  repeat match goal with
         | |- context [if ?b then _ else _] => destruct b eqn:?
         | |- context [match ?x with Some _ => _ | None => _ end] =>
             destruct x eqn:?
         end;
  cbn [fst snd isDrawing hasStrokes lastPoint points bitmap].

(** X13: [draw] never reads a missing last point. From a fresh pad, over
    any sequence of presses, moves, releases, clears and resizes, whenever
    the pad is drawing the last point is set, and no handler raises. *)
Theorem draw_never_fails (evs : list (event point)) :
  filter is_uncaught (snd (pad_run pad_init evs)) = [] /\
  (isDrawing (fst (pad_run pad_init evs)) = true ->
   lastPoint (fst (pad_run pad_init evs)) <> None).
Proof.
  assert (Hstep : forall (st : pad_state) e,
             (isDrawing st = true -> lastPoint st <> None) ->
             filter is_uncaught (snd (pad_step st e)) = [] /\
             (isDrawing (fst (pad_step st e)) = true ->
              lastPoint (fst (pad_step st e)) <> None)).
  { intros st e. pad_cases st e; intros Hinv; split;
      try reflexivity; try discriminate; try assumption;
      try (exfalso; now apply Hinv). }
  assert (H : forall l (st : pad_state),
             (isDrawing st = true -> lastPoint st <> None) ->
             filter is_uncaught (snd (pad_run st l)) = [] /\
             (isDrawing (fst (pad_run st l)) = true ->
              lastPoint (fst (pad_run st l)) <> None)).
  { induction l as [|e l IH]; intros st Hinv; [now split|].
    rewrite pad_run_cons. cbn [fst snd].
    destruct (Hstep st e Hinv) as [H1 H2].
    destruct (IH _ H2) as [H3 H4].
    split; [now rewrite filter_app, H1, H3|exact H4]. }
  apply H. discriminate.
Qed.

Lemma exports_app (a b : list effect) :
  exports (a ++ b) = exports a + exports b.
Proof. unfold exports. now rewrite filter_app, length_app. Qed.

(** X14: the pad reports an image only when a stroke that was begun is
    released: over any sequence of events from a fresh pad, the images
    reported, plus one if a stroke is still open, never exceed the presses;
    and a release with no stroke open (mouse-leave after mouse-up) reports
    nothing. *)
Theorem export_closes_a_stroke (evs : list (event point)) :
  exports (snd (pad_run pad_init evs))
    + QRSignatureModal.b2n (isDrawing (fst (pad_run pad_init evs)))
  <= starts evs /\
  (forall st : pad_state,
     snd (pad_step (fst (pad_step st End_)) End_) = []).
Proof.
  assert (Hstep : forall (st : pad_state) e,
             exports (snd (pad_step st e))
               + QRSignatureModal.b2n (isDrawing (fst (pad_step st e)))
             <= QRSignatureModal.b2n (is_start e)
                + QRSignatureModal.b2n (isDrawing st)).
  { intros st e. pad_cases st e; cbn; lia. }
  assert (H : forall l (st : pad_state),
             exports (snd (pad_run st l))
               + QRSignatureModal.b2n (isDrawing (fst (pad_run st l)))
             <= starts l + QRSignatureModal.b2n (isDrawing st)).
  { induction l as [|e l IH]; intros st; [cbn; lia|].
    rewrite pad_run_cons. cbn [fst snd]. rewrite exports_app.
    specialize (IH (fst (pad_step st e))). specialize (Hstep st e).
    unfold starts in *. cbn [filter].
    destruct (is_start e); cbn [length QRSignatureModal.b2n] in *; lia. }
  split.
  - specialize (H evs pad_init). cbn in H. lia.
  - intros st. destruct st as [dr hs lp ps bm].
    cbn [step isDrawing]. destruct dr; reflexivity.
Qed.

Lemma held_app (v : option jsstring) (a b : list effect) :
  held (held v a) b = held v (a ++ b).
Proof. unfold held. now rewrite fold_left_app. Qed.

(** X15: the clear button mirrors what the parent holds. With the callback
    given, over any sequence of events from a fresh pad, [hasStrokes] (which
    shows the clear button and hides the placeholder) is true exactly when
    the last value reported to the parent is an image rather than [null]. *)
Theorem clear_button_mirrors_parent (evs : list (event point)) :
  has_callback = true ->
  hasStrokes (fst (pad_run pad_init evs))
  = is_some (held None (snd (pad_run pad_init evs))).
Proof.
  intros Hcb.
  assert (Hstep : forall (st : pad_state) e v,
             hasStrokes st = is_some v ->
             hasStrokes (fst (pad_step st e))
             = is_some (held v (snd (pad_step st e)))).
  { intros st e v. pad_cases st e; cbn; intros H;
      try assumption; try reflexivity; congruence. }
  assert (H : forall l (st : pad_state) v,
             hasStrokes st = is_some v ->
             hasStrokes (fst (pad_run st l))
             = is_some (held v (snd (pad_run st l)))).
  { induction l as [|e l IH]; intros st v Hv; [exact Hv|].
    rewrite pad_run_cons. cbn [fst snd]. rewrite <- held_app.
    apply IH. now apply Hstep. }
  now apply H.
Qed.

(** X16: a press and release without any movement draws nothing, yet it
    marks the pad as signed and reports the image of the untouched canvas;
    on the mobile page, ready and connected, that report enables the button
    and a click then sends that image. *)
Theorem tap_sends_the_untouched_canvas
  (p : point) (tgt : jsstring) (st : MobileSignPage.state) (c : nat) :
  toDataURL blank <> [] ->
  MobileSignPage.status st = MobileSignPage.ready ->
  MobileSignPage.mounted st = true ->
  MobileSignPage.connRef st = Some c ->
  run blank stroke toDataURL true pad_init [Start p; End_]
    = (mk_state false true None [p] blank,
       [preventDefault; onSignatureChange (Some (toDataURL blank))]) /\
  snd (MobileSignPage.run tgt st
         (to_page (snd (run blank stroke toDataURL true pad_init
                          [Start p; End_]))
          ++ [MobileSignPage.ClickSend]))
    = [MobileSignPage.send c (MobileSignPage.payload (toDataURL blank));
       MobileSignPage.setTimeout 300].
Proof.
  intros Hne Hs Hm Hc. split; [reflexivity|].
  destruct (toDataURL blank) as [|u rl] eqn:Hu; [congruence|].
  destruct st as [sts url cr m w t].
  cbn [MobileSignPage.status MobileSignPage.mounted MobileSignPage.connRef]
    in Hs, Hm, Hc.
  subst sts m cr. cbn. rewrite Hu. reflexivity.
Qed.

End PadFacts.

Lemma clear_button_mirrors_parent_witness :
  hasStrokes
    (fst (run 0 example_stroke example_export true (init 0)
            [Start 1; Move 2; End_; ClickClear; Start 3; End_]))
  = is_some
      (held None
         (snd (run 0 example_stroke example_export true (init 0)
                 [Start 1; Move 2; End_; ClickClear; Start 3; End_]))).
Proof.
  apply (clear_button_mirrors_parent nat nat 0 example_stroke example_export
           true [Start 1; Move 2; End_; ClickClear; Start 3; End_] eq_refl).
Defined.

Lemma tap_sends_the_untouched_canvas_witness :
  example_export 0 <> [] /\
  MobileSignPage.status Session.client_ready = MobileSignPage.ready /\
  MobileSignPage.mounted Session.client_ready = true /\
  MobileSignPage.connRef Session.client_ready = Some 0 /\
  snd (MobileSignPage.run Session.ABC123 Session.client_ready
         (to_page (snd (run 0 example_stroke example_export true (init 0)
                          [Start 5; End_]))
          ++ [MobileSignPage.ClickSend]))
    = [MobileSignPage.send 0 (MobileSignPage.payload (example_export 0));
       MobileSignPage.setTimeout 300].
Proof.
  assert (Hne : example_export 0 <> []) by discriminate.
  split; [exact Hne|]. split; [reflexivity|]. split; [reflexivity|].
  split; [reflexivity|].
  exact (proj2 (tap_sends_the_untouched_canvas nat nat 0 example_stroke
                  example_export 5 Session.ABC123 Session.client_ready 0
                  Hne eq_refl eq_refl eq_refl)).
Defined.

End PadExtras.

(** * Properties of the cookie helpers *)

Module CookieExtras.

Import Cookies.

Lemma has_char_app (c : jschar) (a b : jsstring) :
  has_char c (a ++ b) = has_char c a || has_char c b.
Proof. unfold has_char. apply existsb_app. Qed.

Lemma word_has_no (c : jschar) (name : jsstring) :
  is_word c = false -> forallb is_word name = true -> has_char c name = false.
Proof.
  intros Hc. induction name as [|a name IH]; intros H; [reflexivity|].
  cbn [forallb] in H. apply andb_true_iff in H as [Ha H].
  unfold has_char in *. cbn [existsb]. rewrite (IH H), orb_false_r.
  destruct (N.eqb_spec c a) as [->|]; congruence.
Qed.

Lemma document_cookie_cons (kv : jsstring * jsstring) (rest : jar) :
  document_cookie (kv :: rest) = entry kv ++ following rest.
Proof.
  destruct rest; cbn [document_cookie following]; [now rewrite app_nil_r|].
  reflexivity.
Qed.

Lemma value_run_app (v tail : jsstring) :
  has_char 59%N v = false ->
  (tail = [] \/ exists t, tail = 59%N :: t) ->
  value_run (v ++ tail) = v.
Proof.
  intros Hv Ht. induction v as [|c v IH]; cbn [app value_run].
  - destruct Ht as [->|(t & ->)]; reflexivity.
  - unfold has_char in Hv. cbn [existsb] in Hv.
    apply orb_false_iff in Hv as [Hc Hv].
    rewrite N.eqb_sym, Hc. f_equal. now apply IH.
Qed.

Lemma strip_key_other (name k r : jsstring) :
  has_char 61%N name = false -> has_char 61%N k = false -> k <> name ->
  Router.strip_prefix (name ++ [61%N]) (k ++ 61%N :: r) = None.
Proof.
  revert k. induction name as [|a name IH]; intros k Hn Hk Hne.
  - destruct k as [|c k]; [congruence|]. cbn [app Router.strip_prefix].
    unfold has_char in Hk. cbn [existsb] in Hk.
    apply orb_false_iff in Hk as [Hc _]. now rewrite Hc.
  - unfold has_char in Hn. cbn [existsb] in Hn.
    apply orb_false_iff in Hn as [Ha Hn].
    destruct k as [|c k]; cbn [app Router.strip_prefix].
    + rewrite N.eqb_sym, Ha. reflexivity.
    + destruct (N.eqb_spec a c) as [->|]; [|reflexivity].
      unfold has_char in Hk. cbn [existsb] in Hk.
      apply orb_false_iff in Hk as [_ Hk].
      apply IH; [exact Hn|exact Hk|congruence].
Qed.

(** The pattern's tail on one cookie of the string. *)
Lemma after_key_entry (name k v tail : jsstring) :
  has_char 61%N name = false -> has_char 61%N k = false ->
  has_char 59%N v = false ->
  (tail = [] \/ exists t, tail = 59%N :: t) ->
  after_key name (entry (k, v) ++ tail)
  = if jsstring_dec k name
    then match v with [] => None | c :: v' => Some (c :: v') end
    else None.
Proof.
  intros Hn Hk Hv Ht. unfold after_key, entry. cbn [fst snd].
  rewrite <- !app_assoc. cbn [app].
  destruct (jsstring_dec k name) as [->|Hne].
  - change (name ++ 61%N :: v ++ tail) with (name ++ [61%N] ++ v ++ tail).
    rewrite app_assoc, RouterClaims.strip_prefix_app, value_run_app by assumption.
    reflexivity.
  - now rewrite strip_key_other.
Qed.

Lemma search_skip (name body rest : jsstring) :
  has_char 32%N body = false ->
  search name false (body ++ rest) = search name false rest.
Proof.
  induction body as [|c body IH]; intros H; [reflexivity|].
  unfold has_char in H. cbn [existsb] in H.
  apply orb_false_iff in H as [Hc H].
  cbn [app search match_here]. rewrite N.eqb_sym, Hc. now apply IH.
Qed.

Lemma following_shape (rest : jar) :
  following rest = [] \/ exists t, following rest = 59%N :: t.
Proof. destruct rest; [now left|right; eexists; reflexivity]. Qed.

Lemma entry_no_space (kv : jsstring * jsstring) :
  well_formed_entry kv = true -> has_char 32%N (entry kv) = false.
Proof.
  unfold well_formed_entry, entry. intros H.
  apply andb_true_iff in H as [H _].
  apply andb_true_iff in H as [H Hv].
  apply andb_true_iff in H as [H _].
  apply andb_true_iff in H as [Hk _].
  rewrite !has_char_app.
  apply negb_true_iff in Hk, Hv. rewrite Hk, Hv. reflexivity.
Qed.

Lemma entry_first (kv : jsstring * jsstring) :
  well_formed_entry kv = true ->
  exists c s, entry kv = c :: s /\ (c =? 32)%N = false.
Proof.
  intros H. pose proof (entry_no_space kv H) as Hs.
  unfold entry in *. destruct (fst kv) as [|c k]; cbn [app] in *.
  - eexists _, _. split; [reflexivity|reflexivity].
  - exists c, (k ++ 61%N :: snd kv). split; [reflexivity|].
    unfold has_char in Hs. cbn [existsb] in Hs.
    apply orb_false_iff in Hs as [Hc _]. now rewrite N.eqb_sym.
Qed.

(** Searching the cookie string finds the first cookie of that name that
    holds a value. *)
Lemma search_jar (name : jsstring) (j : jar) :
  has_char 61%N name = false -> well_formed_jar j = true ->
  search name true (document_cookie j) = find_value name j /\
  search name false (following j) = find_value name j.
Proof.
  intros Hn. induction j as [|[k v] rest IH]; intros Hwf.
  - cbn. unfold after_key. destruct name; cbn; split; reflexivity.
  - cbn [well_formed_jar forallb] in Hwf.
    apply andb_true_iff in Hwf as [Hkv Hrest].
    destruct (IH Hrest) as [_ IHb].
    pose proof (entry_no_space _ Hkv) as Hsp.
    destruct (entry_first _ Hkv) as (c & s & Hes & Hc).
    assert (Hk : has_char 61%N k = false /\ has_char 59%N v = false).
    { unfold well_formed_entry in Hkv. cbn [fst snd] in Hkv.
      apply andb_true_iff in Hkv as [Hkv H59].
      apply andb_true_iff in Hkv as [Hkv _].
      apply andb_true_iff in Hkv as [_ H61].
      split; now apply negb_true_iff. }
    destruct Hk as [Hk Hv].
    pose proof (after_key_entry name k v (following rest) Hn Hk Hv
                  (following_shape rest)) as Hak.
    assert (Hfalse : search name false (entry (k, v) ++ following rest)
                     = find_value name rest).
    { now rewrite search_skip. }
    assert (Hfind : find_value name ((k, v) :: rest)
                    = match after_key name (entry (k, v) ++ following rest) with
                      | Some x => Some x
                      | None => find_value name rest
                      end).
    { rewrite Hak. cbn [find_value]. unfold str_eqb.
      destruct (jsstring_dec k name); [destruct v|]; reflexivity. }
    assert (Htail : search name false (s ++ following rest)
                    = find_value name rest).
    { pose proof (search_skip name _ (following rest) Hsp) as Hsk.
      rewrite <- Hfalse, Hsk. rewrite Hes in Hsp.
      unfold has_char in Hsp. cbn [existsb] in Hsp.
      apply orb_false_iff in Hsp as [_ Hs].
      exact (search_skip name s (following rest) Hs). }
    rewrite Hfind. rewrite Hes in *. cbn [app] in *. split.
    + rewrite document_cookie_cons, Hes. cbn [app search].
      unfold match_here.
      destruct (after_key name (c :: s ++ following rest)) as [x|] eqn:Ha;
        [reflexivity|].
      rewrite Hc. exact Htail.
    + cbn [following]. rewrite document_cookie_cons, Hes.
      cbn [app search]. unfold match_here at 1. cbn [N.eqb Pos.eqb].
      cbn [search]. unfold match_here at 1. cbn [N.eqb Pos.eqb].
      destruct (after_key name (c :: s ++ following rest)) as [x|] eqn:Ha;
        [reflexivity|].
      cbn [search]. unfold match_here. rewrite Hc. exact Htail.
Qed.

Lemma word_name_is_key (name : jsstring) :
  forallb is_word name = true ->
  has_char 32%N name = false /\ has_char 59%N name = false /\
  has_char 61%N name = false.
Proof.
  intros H. repeat split; apply word_has_no; trivial.
Qed.

(** X17: on a cookie string of well-formed cookies, [getCookie] with a name
    of word characters decodes the value of the first cookie whose name is
    exactly that name and whose value is not empty, and gives the empty
    string when there is none; a cookie whose name merely ends with the
    name, or whose value contains it, is not taken for it. *)
Theorem getCookie_finds_the_named_cookie
  (decodeURIComponent : jsstring -> option jsstring) (name : jsstring) (j : jar) :
  forallb is_word name = true ->
  well_formed_jar j = true ->
  getCookie decodeURIComponent name (document_cookie j)
  = match find_value name j with
    | Some v => decodeURIComponent v
    | None => Some []
    end.
Proof.
  intros Hname Hwf. unfold getCookie.
  destruct (word_name_is_key name Hname) as (_ & _ & H61).
  now rewrite (proj1 (search_jar name j H61 Hwf)).
Qed.

Lemma getCookie_finds_the_named_cookie_witness :
  forallb is_word child_name_cookie = true /\
  well_formed_jar
    ((js "xovikreta_child_name", js "Eve") :: example_jar) = true /\
  getCookie Some child_name_cookie
    (document_cookie ((js "xovikreta_child_name", js "Eve") :: example_jar))
  = Some (js "Bob").
Proof.
  split; [reflexivity|]. split; [reflexivity|].
  apply (getCookie_finds_the_named_cookie Some child_name_cookie
           ((js "xovikreta_child_name", js "Eve") :: example_jar));
    reflexivity.
Defined.

Lemma str_eqb_refl' (a : jsstring) : str_eqb a a = true.
Proof. unfold str_eqb. destruct (jsstring_dec a a); congruence. Qed.

Lemma find_value_absent (name : jsstring) (j : jar) :
  ~ In name (map fst j) -> find_value name j = None.
Proof.
  induction j as [|[k v] rest IH]; intros H; [reflexivity|].
  cbn [find_value map fst In] in *. unfold str_eqb.
  destruct (jsstring_dec k name) as [->|]; [tauto|]. apply IH. tauto.
Qed.

Lemma store_spec (name value : jsstring) (j : jar) :
  NoDup (map fst j) ->
  find_value name (store name value j)
  = match value with [] => None | c :: v => Some (c :: v) end.
Proof.
  induction j as [|[k v] rest IH]; intros Hnd.
  - cbn [store find_value]. rewrite str_eqb_refl'.
    destruct value; reflexivity.
  - cbn [store map fst] in *. inversion Hnd as [|? ? Hnin Hnd']; subst.
    unfold str_eqb. destruct (jsstring_dec k name) as [->|Hne].
    + cbn [find_value]. rewrite str_eqb_refl'.
      destruct value; [now apply find_value_absent|reflexivity].
    + cbn [find_value]. unfold str_eqb.
      destruct (jsstring_dec k name); [congruence|]. now apply IH.
Qed.

Lemma store_well_formed (name value : jsstring) (j : jar) :
  well_formed_entry (name, value) = true -> well_formed_jar j = true ->
  well_formed_jar (store name value j) = true.
Proof.
  intros Hnv. induction j as [|[k v] rest IH]; intros Hwf.
  - cbn. now rewrite Hnv.
  - cbn [well_formed_jar forallb store] in *.
    apply andb_true_iff in Hwf as [Hkv Hrest].
    destruct (str_eqb k name); cbn [forallb].
    + now rewrite Hnv, Hrest.
    + rewrite Hkv. now apply IH.
Qed.

(** X18: [setCookie] then [getCookie] gives the value back. For a name of
    word characters, a jar of well-formed cookies with distinct names, and a
    value that the platform's encoding turns into a string without space
    or [;] (empty only if the value is) and decodes back, [getCookie] reads
    from the updated [document.cookie] exactly the value that was set; the
    empty value included. *)
Theorem cookie_round_trip
  (encodeURIComponent : jsstring -> jsstring)
  (decodeURIComponent : jsstring -> option jsstring)
  (name value : jsstring) (j : jar) :
  forallb is_word name = true ->
  well_formed_jar j = true ->
  NoDup (map fst j) ->
  has_char 32%N (encodeURIComponent value) = false ->
  has_char 59%N (encodeURIComponent value) = false ->
  decodeURIComponent (encodeURIComponent value) = Some value ->
  (encodeURIComponent value = [] -> value = []) ->
  getCookie decodeURIComponent name
    (document_cookie (setCookie encodeURIComponent name value j))
  = Some value.
Proof.
  intros Hname Hwf Hnd H32 H59 Hdec Hempty.
  destruct (word_name_is_key name Hname) as (N32 & N59 & N61).
  assert (Hentry : well_formed_entry (name, encodeURIComponent value) = true).
  { unfold well_formed_entry. cbn [fst snd].
    now rewrite N32, N59, N61, H32, H59. }
  unfold getCookie, setCookie.
  rewrite (proj1 (search_jar name _ N61 (store_well_formed _ _ _ Hentry Hwf))).
  rewrite store_spec by exact Hnd.
  destruct (encodeURIComponent value) as [|c v] eqn:He.
  - now rewrite Hempty.
  - exact Hdec.
Qed.

Lemma cookie_round_trip_witness :
  forallb is_word child_name_cookie = true /\
  well_formed_jar example_jar = true /\
  getCookie Some child_name_cookie
    (document_cookie (setCookie (fun v => v) child_name_cookie (js "Anna")
                        example_jar))
  = Some (js "Anna").
Proof.
  split; [reflexivity|]. split; [reflexivity|].
  apply (cookie_round_trip (fun v => v) Some child_name_cookie (js "Anna")
           example_jar); try reflexivity.
  - repeat constructor; cbn; intuition discriminate.
  - discriminate.
Defined.

End CookieExtras.

(** * The form and the modal together; the page's timer *)

Module ParentExtras.

Import QRSignatureModal HostFacts FormWithModal.

Lemma accepts_truthy (data : jsval) :
  accepts data = true -> truthy (dataUrl_of data) = true.
Proof.
  unfold accepts, signature_check, dataUrl_of.
  destruct data as [| |b|z|s|l|fs]; simpl; try discriminate.
  - destruct b; discriminate.
  - destruct (z =? 0)%Z; discriminate.
  - destruct s; discriminate.
  - destruct (strict_eq_str (lookup (js "type") fs) (js "signature"));
      [|discriminate].
    destruct (truthy (lookup (js "dataUrl") fs)); [reflexivity|discriminate].
Qed.

Lemma In_burst (v w : jsval) (n : nat) :
  In (onSignature v) (burst w n) -> v = w.
Proof.
  unfold burst. induction n as [|k IH]; cbn [repeat concat]; [contradiction|].
  rewrite in_app_iff. intros [[H|[H|[]]]|H]; [congruence|discriminate|auto].
Qed.

Lemma step_images_truthy (st : state) (e : event) (v : jsval) :
  In (onSignature v) (snd (step st e)) -> truthy v = true.
Proof.
  destruct e as [id|c|c data|c|err| | |]; cbn [step].
  3: { rewrite emit_on_data. destruct (accepts data) eqn:Ha; [|contradiction].
       cbn [snd]. intros H. apply In_burst in H as ->.
       now apply accepts_truthy. }
  all: try (cbn; intros H;
            repeat match goal with
                   | H : _ \/ _ |- _ => destruct H as [H|H]
                   | H : False |- _ => contradiction
                   end; discriminate).
  - destruct (timers st); cbn; intros H;
      repeat match goal with
             | H : _ \/ _ |- _ => destruct H as [H|H]
             | H : False |- _ => contradiction
             end; discriminate.
  - destruct (mounted st); cbn; intros H;
      repeat match goal with
             | H : _ \/ _ |- _ => destruct H as [H|H]
             | H : False |- _ => contradiction
             end; discriminate.
  - destruct (mounted st); cbn; intros H;
      repeat match goal with
             | H : _ \/ _ |- _ => destruct H as [H|H]
             | H : False |- _ => contradiction
             end; discriminate.
Qed.

Lemma run_images_truthy (st : state) (evs : list event) (v : jsval) :
  In (onSignature v) (snd (run st evs)) -> truthy v = true.
Proof.
  revert st. induction evs as [|e evs IH]; intros st; [contradiction|].
  rewrite run_cons. cbn [snd]. rewrite in_app_iff.
  intros [H|H]; [now apply step_images_truthy in H|now apply IH in H].
Qed.

Lemma after_modal_fields (out : list effect) (p : page) :
  ParentalAbsenceForm.childName (fields (after_modal p out)) = ParentalAbsenceForm.childName (fields p) /\
  ParentalAbsenceForm.fromDate (fields (after_modal p out)) = ParentalAbsenceForm.fromDate (fields p) /\
  ParentalAbsenceForm.toDate (fields (after_modal p out)) = ParentalAbsenceForm.toDate (fields p) /\
  ParentalAbsenceForm.selectedSignature (fields (after_modal p out)) = ParentalAbsenceForm.selectedSignature (fields p).
Proof.
  revert p. induction out as [|f out IH]; intros p; [now repeat split|].
  unfold after_modal in *. cbn [fold_left].
  destruct (IH (on_modal_effect p f)) as (H1 & H2 & H3 & H4).
  rewrite H1, H2, H3, H4. destruct f; repeat split.
Qed.

Lemma after_modal_drawn (out : list effect) (p : page) :
  (forall v, In (onSignature v) out -> truthy v = true) ->
  1 <= onSignature_calls out \/
  (showQRModal p = false /\ truthy (ParentalAbsenceForm.drawnSignature (fields p)) = true) ->
  showQRModal (after_modal p out) = false /\
  truthy (ParentalAbsenceForm.drawnSignature (fields (after_modal p out))) = true.
Proof.
  revert p. induction out as [|f out IH]; intros p Hall Hc.
  - destruct Hc as [Hc|Hc]; [cbn in Hc; lia|exact Hc].
  - unfold after_modal in *. cbn [fold_left]. apply IH.
    + intros v Hv. apply Hall. now right.
    + destruct f as [v| | | | |]; cbn [on_modal_effect].
      * right. split; [reflexivity|]. apply Hall. now left.
      * destruct Hc as [Hc|[_ Hc]]; [left; exact Hc|].
        right. now split.
      * exact Hc.
      * exact Hc.
      * exact Hc.
      * exact Hc.
Qed.

(** X19: every value the host hands to [onSignature] is truthy. So once the
    host has called it, the form, having stored the value and closed the
    modal as its callback does, holds a drawn signature that satisfies
    [ParentalAbsenceForm.isFormComplete]: a form that lacked nothing else is complete. *)
Theorem received_signature_completes_form (evs : list event) (p : page) :
  (forall v, In (onSignature v) (snd (run init evs)) -> truthy v = true) /\
  (1 <= onSignature_calls (snd (run init evs)) ->
   showQRModal (after_modal p (snd (run init evs))) = false /\
   truthy (ParentalAbsenceForm.drawnSignature (fields (after_modal p (snd (run init evs))))) = true /\
   (awaits_drawing (fields p) = true ->
    ParentalAbsenceForm.isFormComplete (fields (after_modal p (snd (run init evs)))) = true)).
Proof.
  assert (Hall : forall v, In (onSignature v) (snd (run init evs)) ->
                           truthy v = true)
    by (intros v; apply run_images_truthy).
  split; [exact Hall|]. intros Hc.
  destruct (after_modal_drawn (snd (run init evs)) p Hall (or_introl Hc))
    as [Hs Ht].
  split; [exact Hs|]. split; [exact Ht|].
  intros Hw. unfold awaits_drawing in Hw. unfold ParentalAbsenceForm.isFormComplete.
  destruct (after_modal_fields (snd (run init evs)) p) as (H1 & H2 & H3 & H4).
  rewrite H1, H2, H3, H4.
  destruct (ParentalAbsenceForm.selectedSignature (fields p));
    try (rewrite andb_false_r in Hw; discriminate).
  rewrite andb_true_r in Hw. now rewrite Hw, Ht.
Qed.

End ParentExtras.

Module TimerExtras.

Import MobileSignPage ClientClaims ClientExtras Traces.

Lemma step_keeps_timer (tgt : jsstring) (st : state) (e : event) :
  is_unmount_or_timeout e = false ->
  mounted st = true -> timers st <> 0 ->
  mounted (fst (step tgt st e)) = true /\ timers (fst (step tgt st e)) <> 0.
Proof.
  intros He. destruct e as [c|c|c err|c|err|v| | |]; try discriminate He;
    clear He; client_state st; cbn; intros; split; congruence.
Qed.

(** X20: the timer of a send shows the success screen whatever happened in
    between. On a mounted page with a send in flight, after any events other
    than unmount and timer callbacks (connection or endpoint errors among
    them, which show the error screen), the next timer callback sets the
    status to [sent]. *)
Theorem pending_timer_shows_sent
  (tgt : jsstring) (st : state) (evs : list event) :
  mounted st = true -> timers st <> 0 ->
  forallb (fun e => negb (is_unmount_or_timeout e)) evs = true ->
  status (fst (run tgt st (evs ++ [Timeout]))) = sent.
Proof.
  revert st. induction evs as [|e evs IH]; intros st Hm Ht Hev.
  - cbn [app run step]. destruct (timers st) as [|n] eqn:Hn; [congruence|].
    cbn [fst]. unfold setStatus, set_timers. cbn [mounted]. now rewrite Hm.
  - cbn [forallb] in Hev. apply andb_true_iff in Hev as [He Hev].
    apply negb_true_iff in He.
    destruct (step_keeps_timer tgt st e He Hm Ht) as [Hm' Ht'].
    cbn [app]. rewrite client_run_cons. cbn [fst]. now apply IH.
Qed.

Lemma pending_timer_shows_sent_witness :
  mounted Session.client_sending = true /\
  timers Session.client_sending <> 0 /\
  forallb (fun e => negb (is_unmount_or_timeout e)) errors_in_flight = true /\
  status (fst (run Session.ABC123 Session.client_sending errors_in_flight))
    = error /\
  status (fst (run Session.ABC123 Session.client_sending
                 (errors_in_flight ++ [Timeout]))) = sent.
Proof.
  assert (Ht : timers Session.client_sending <> 0) by discriminate.
  split; [reflexivity|]. split; [exact Ht|]. split; [reflexivity|].
  split; [reflexivity|].
  apply (pending_timer_shows_sent Session.ABC123 Session.client_sending
           errors_in_flight eq_refl Ht eq_refl).
Defined.

End TimerExtras.
